(** * KnowledgeLLM: the image library scan engine and the two-stage retriever

    A shallow embedding of [src/library/image/image_lib.py] (class
    [ImageLib]) and of [embedding_retriever.py] (class
    [DocEmbeddingRetriever]), with the properties of the specification
    stated and settled against them. *)

From Stdlib Require Import ZArith QArith Ascii Permutation Sorted.
From stdpp Require Import gmap strings list fin_maps sorting.

Local Open Scope Z_scope.

(** ** Exceptions

    The exceptions the two classes raise.  Every operation below returns the
    state it leaves behind together with its outcome, because Python code
    mutates the object before it raises. *)

Inductive exn : Type :=
  | ValueError (msg : string)
  | IndexError
  | LibraryError (msg : string)
  | VectorDbError (msg : string)
  | LockAcquisitionFailure (msg : string)
  | TaskCancellationException (msg : string)
  | AttributeError (msg : string).

(** An embedding is a list of floats.  Its components are never inspected by
    the code below, only its emptiness and its length are. *)
Definition embedding : Type := list Q.

(** * The retrieval pipeline ([embedding_retriever.py]) *)

Module Retriever.

(** Modelled from the spec: the content record that
    [WechatHistoryProvider.get_record_by_id] resolves a neighbor id to.  Only
    its [message] attribute is read, and the return annotation
    [list[str | None]] of [__retrieve] allows it to be [None]. *)
Record HistoryRecord : Type := mkHistoryRecord { message : option string }.

(** The attributes of a [DocEmbeddingRetriever].  The two models and the
    faiss index are external: [transformer] is [SentenceTransformer.encode],
    [ranker] is the score [CrossEncoder.predict] gives to one (query,
    candidate) pair, [index] is [IndexIVFFlat.search] (row [I[0]] of its
    result), [doc_provider] is [get_record_by_id]. *)
Record DocEmbeddingRetriever : Type := mkRetriever {
  transformer : string -> embedding;
  ranker : string -> string -> Q;
  index : option (embedding -> Z -> list Z);
  doc_provider : option (Z -> option HistoryRecord)
}.

(** [if not self.doc_provider or not self.index] is false. *)
Definition initialized (r : DocEmbeddingRetriever) : Prop :=
  is_Some (doc_provider r) /\ is_Some (index r).

(** [__retrieve].  The first component of the result logs the [top_k] of
    every [self.index.search] request the call makes. *)
Definition retrieve (r : DocEmbeddingRetriever) (text : string) (top_k : Z)
  : list Z * (exn + list (option string)) :=
  match doc_provider r, index r with
  | Some get_record_by_id, Some search =>
      if bool_decide (text = "") || (top_k <=? 0) then ([], inr [])
      else
        let query_embedding := transformer r text in
        let I0 := search query_embedding top_k in
        ([top_k],
         inr (flat_map (fun i => match get_record_by_id i with
                                 | Some record => [message record]
                                 | None => []
                                 end) I0))
  | _, _ => ([], inl (ValueError "Not initialized"))
  end.

(** [ranker.predict(merge)]: one score per (query, candidate) pair. *)
Definition predict (r : DocEmbeddingRetriever) (merge : list (string * string)) : list Q :=
  map (fun p => ranker r (fst p) (snd p)) merge.

(** [[candidates[i] for i in sorted_ids]]; an index out of range raises. *)
Definition pick (candidates : list string) (sorted_ids : list nat) : exn + list string :=
  match mapM (fun i => candidates !! i) sorted_ids with
  | Some l => inr l
  | None => inl IndexError
  end.

(** [__rerank], with [np.argsort] as a parameter. *)
Definition rerank (argsort : list Q -> list nat)
    (r : DocEmbeddingRetriever) (text : string) (candidates : list string)
  : exn + list string :=
  match doc_provider r, index r with
  | Some _, Some _ =>
      let merge := map (fun c => (text, c)) candidates in
      let scores := predict r merge in
      let sorted_ids := rev (argsort scores) in
      pick candidates sorted_ids
  | _, _ => inl (ValueError "Not initialized")
  end.

(** Python's [l[:k]]: a negative [k] counts from the end. *)
Definition slice_to {A : Type} (k : Z) (l : list A) : list A :=
  if 0 <=? k then take (Z.to_nat k) l
  else take (length l - Z.to_nat (- k))%nat l.

(** [[_ for _ in candidates if _ is not None]] *)
Definition not_None (candidates : list (option string)) : list string :=
  omap id candidates.

(** [query] *)
Definition query (argsort : list Q -> list nat)
    (r : DocEmbeddingRetriever) (query_text : string) (top_k : Z)
  : list Z * (exn + list string) :=
  let '(requests, res) := retrieve r query_text (top_k * 20) in
  match res with
  | inl e => (requests, inl e)
  | inr candidates =>
      match rerank argsort r query_text (not_None candidates) with
      | inl e => (requests, inl e)
      | inr ranked => (requests, inr (slice_to top_k ranked))
      end
  end.

(** [bool(x)] for an optional string: [None] and the empty string are
    false. *)
Definition truthy (x : option string) : bool :=
  match x with
  | Some (String _ _) => true
  | _ => false
  end.

(** [initialize].  [provider] is the constructor
    [WechatHistoryProvider(chat_name, raw_doc_path)].  The list
    comprehension that follows it reads [self.raw_doc], an attribute that no
    code of the class assigns: the call raises [AttributeError] there, and
    what the method would go on to do (embed the documents, build and train
    the index, write the pickle) is never reached. *)
Definition initialize
    (provider : string -> option string -> exn + (Z -> option HistoryRecord))
    (r : DocEmbeddingRetriever) (index_filename chat_name : string)
    (raw_doc_path : option string) : DocEmbeddingRetriever * (exn + unit) :=
  if bool_decide (is_Some (index r)) && negb (truthy raw_doc_path) then (r, inr tt)
  else
    match provider chat_name raw_doc_path with
    | inl e => (r, inl e)
    | inr get_record_by_id =>
        (mkRetriever (transformer r) (ranker r) (index r) (Some get_record_by_id),
         inl (AttributeError "'DocEmbeddingRetriever' object has no attribute 'raw_doc'"))
    end.

(** *** [np.argsort]

    What numpy documents of [argsort]: the result lists every index of the
    array once, in ascending order of the values.  The default kind is not a
    stable sort, so nothing more is promised on equal values. *)
Definition ascending (scores : list Q) (i j : nat) : Prop :=
  (nth i scores 0 <= nth j scores 0)%Q.

Definition argsort_ok (argsort : list Q -> list nat) : Prop :=
  forall scores : list Q,
    argsort scores ≡ₚ seq 0 (length scores) /\
    StronglySorted (ascending scores) (argsort scores).

(** numpy's default introsort sorts a run of at most 16 elements by
    insertion: each index in turn moves left past the indices of strictly
    greater values. *)
Fixpoint insert_index (scores : list Q) (vi : nat) (sorted : list nat) : list nat :=
  match sorted with
  | [] => [vi]
  | pk :: rest =>
      if Qle_bool (nth pk scores 0%Q) (nth vi scores 0%Q)
      then pk :: insert_index scores vi rest
      else vi :: pk :: rest
  end.

Definition np_argsort (scores : list Q) : list nat :=
  fold_left (fun sorted vi => insert_index scores vi sorted)
            (seq 0 (length scores)) [].

(** ** The notions of the specification *)

(** [a] may come before [b] in a list ordered by descending Ranker score. *)
Definition descending (r : DocEmbeddingRetriever) (text : string) (a b : string) : Prop :=
  (ranker r text b <= ranker r text a)%Q.

(** Candidates of equal score keep the order they have in the input. *)
Definition ties_in_input_order (r : DocEmbeddingRetriever) (text : string)
    (input output : list string) : Prop :=
  forall (i j : nat) (a b : string),
    (i < j)%nat -> input !! i = Some a -> input !! j = Some b -> a <> b ->
    (ranker r text a == ranker r text b)%Q ->
    exists p q : nat, (p < q)%nat /\ output !! p = Some a /\ output !! q = Some b.

(** The contents of the records the neighbor ids resolve to, in order; an id
    that resolves to no record, or to a record without content, is
    dropped. *)
Definition resolved_contents (get_record_by_id : Z -> option HistoryRecord)
    (ids : list Z) : list string :=
  omap (fun i => match get_record_by_id i with
                 | Some record => message record
                 | None => None
                 end) ids.

(** [candidates[i]] for an index in range *)
Definition candidate_at (candidates : list string) (i : nat) : string :=
  default "" (candidates !! i).

(** ** Retrievers to evaluate on *)

(** Every candidate gets the same score. *)
Definition tie_retriever : DocEmbeddingRetriever :=
  mkRetriever (fun _ => []) (fun _ _ => 1%Q)
              (Some (fun _ _ => [])) (Some (fun _ => None)).

(** An index that knows four neighbors, and a provider to which the ids 7
    and -1 resolve to no record. *)
Definition demo_search (query_embedding : embedding) (top_k : Z) : list Z :=
  [1; 7; 2; -1].

Definition demo_get_record_by_id (i : Z) : option HistoryRecord :=
  if bool_decide (i = 1) then Some (mkHistoryRecord (Some "x"))
  else if bool_decide (i = 2) then Some (mkHistoryRecord (Some "y"))
  else None.

Definition demo_retriever : DocEmbeddingRetriever :=
  mkRetriever
    (fun _ => [1%Q])
    (fun _ c => if bool_decide (c = "x") then 1 # 2 else 3 # 4)%Q
    (Some demo_search)
    (Some demo_get_record_by_id).

End Retriever.

(** * The image library ([src/library/image/image_lib.py]) *)

Module ImageLibrary.

(** ** Paths ([os.path] on a POSIX system, [os.path.sep] is ["/"]) *)

Definition sep : ascii := "/"%char.

(** [p.lstrip(os.path.sep)] *)
Fixpoint lstrip (p : string) : string :=
  match p with
  | String c rest => if bool_decide (c = sep) then lstrip rest else p
  | EmptyString => EmptyString
  end.

(** [p.rstrip("/")] *)
Fixpoint rstrip (p : string) : string :=
  match p with
  | String c rest =>
      match rstrip rest with
      | EmptyString => if bool_decide (c = sep) then EmptyString else String c EmptyString
      | rest' => String c rest'
      end
  | EmptyString => EmptyString
  end.

(** [(p[:i], p[i:])] for [i = p.rfind("/") + 1] *)
Fixpoint split_sep (p : string) : string * string :=
  match p with
  | String c rest =>
      match split_sep rest with
      | (EmptyString, tail) =>
          if bool_decide (c = sep) then (String c EmptyString, tail)
          else (EmptyString, String c tail)
      | (head, tail) => (String c head, tail)
      end
  | EmptyString => (EmptyString, EmptyString)
  end.

(** [os.path.dirname]: the head, without its trailing separators unless it
    consists of separators only. *)
Definition dirname (p : string) : string :=
  let head := fst (split_sep p) in
  match rstrip head with
  | EmptyString => head
  | stripped => stripped
  end.

(** [os.path.basename] *)
Definition basename (p : string) : string := snd (split_sep p).

(** ** Data *)

(** The uuid of an image.  [uuid4()] draws are taken to be pairwise
    distinct: the n-th draw of a library is represented by [n]. *)
Definition uuid : Type := nat.

(** A row of the metadata table ([sql.record_structure]):
    id, timestamp, uuid, path, filename. *)
Record Row : Type := mkRow {
  row_id : nat;
  row_timestamp : nat;
  row_uuid : uuid;
  row_path : string;
  row_filename : string
}.

(** The effects of a call whose order matters below, logged as they happen:
    a save of the library metadata, with the [last_scanned] it holds, and
    the opening of an image file of the library folder. *)
Inductive event : Type :=
  | MetadataSaved (last_scanned : nat)
  | ImageOpened (relative_path : string).

(** What a call sees of the world outside the library object and does not
    change: which files decode as images ([Image.open] and [verify]), the
    embedder's output, the clock, and which file of the library folder a
    path names.  Time passes while a call runs, so two readings of the clock
    need not agree: [now n] is what [datetime.now()] shows at its reading
    number [n], counted from the creation of the library object.
    [names p f] tells that [os.path.join(self._path_lib, p)] is the file
    whose path relative to the library folder, as [os.path.relpath] gives
    it, is [f]. *)
Record World : Type := mkWorld {
  verify : string -> bool;
  embed_image_as_list : string -> embedding;
  now : nat -> nat;
  names : string -> string -> bool
}.

(** An [ImageLib] object together with what it owns outside its own memory:
    the library data folder, the library folder, the values its progress
    reporter has received, and the log of its metadata saves and of the
    images it opened. *)
Record ImageLib : Type := mkImageLib {
  (* attributes *)
  local_mode : bool;
  last_scanned : nat;                     (* self._metadata['last_scanned'] *)
  table : bool;                           (* self.__table is set *)
  vector_db : bool;                       (* self.__vector_db is set *)
  embedder : bool;                        (* self.__embedder is set *)
  scan_lock : bool;                       (* self.__scan_lock is held *)
  embedded_files : gmap string uuid;      (* the dict of get_embedded_files() *)
  (* library data folder *)
  metadata_file : option nat;             (* last_scanned as saved, if the file exists *)
  scan_profile : gmap string uuid;        (* as written by _save_scan_profile *)
  rows : list Row;                        (* the table of image_lib.db *)
  vectors : list (uuid * embedding);      (* the vector index *)
  staged : list (uuid * embedding);       (* writes waiting in the BatchedPipeline *)
  index_dimension : option Z;             (* set by initialize_index *)
  (* library folder, in os.walk order *)
  files : list string;
  (* outside *)
  uuid4_drawn : nat;                      (* number of uuid4() draws so far *)
  reported : list Z;                      (* values passed to progress_reporter *)
  clock_reads : nat;                      (* number of datetime.now() readings so far *)
  log : list event                        (* metadata saves and images opened so far *)
}.

Definition set_last_scanned (v : nat) (s : ImageLib) : ImageLib :=
  mkImageLib (local_mode s) v (table s) (vector_db s) (embedder s) (scan_lock s)
    (embedded_files s) (metadata_file s) (scan_profile s) (rows s) (vectors s)
    (staged s) (index_dimension s) (files s) (uuid4_drawn s) (reported s) (clock_reads s) (log s).
Definition set_table (v : bool) (s : ImageLib) : ImageLib :=
  mkImageLib (local_mode s) (last_scanned s) v (vector_db s) (embedder s) (scan_lock s)
    (embedded_files s) (metadata_file s) (scan_profile s) (rows s) (vectors s)
    (staged s) (index_dimension s) (files s) (uuid4_drawn s) (reported s) (clock_reads s) (log s).
Definition set_vector_db (v : bool) (s : ImageLib) : ImageLib :=
  mkImageLib (local_mode s) (last_scanned s) (table s) v (embedder s) (scan_lock s)
    (embedded_files s) (metadata_file s) (scan_profile s) (rows s) (vectors s)
    (staged s) (index_dimension s) (files s) (uuid4_drawn s) (reported s) (clock_reads s) (log s).
Definition set_embedder (v : bool) (s : ImageLib) : ImageLib :=
  mkImageLib (local_mode s) (last_scanned s) (table s) (vector_db s) v (scan_lock s)
    (embedded_files s) (metadata_file s) (scan_profile s) (rows s) (vectors s)
    (staged s) (index_dimension s) (files s) (uuid4_drawn s) (reported s) (clock_reads s) (log s).
Definition set_scan_lock (v : bool) (s : ImageLib) : ImageLib :=
  mkImageLib (local_mode s) (last_scanned s) (table s) (vector_db s) (embedder s) v
    (embedded_files s) (metadata_file s) (scan_profile s) (rows s) (vectors s)
    (staged s) (index_dimension s) (files s) (uuid4_drawn s) (reported s) (clock_reads s) (log s).
Definition set_embedded_files (v : gmap string uuid) (s : ImageLib) : ImageLib :=
  mkImageLib (local_mode s) (last_scanned s) (table s) (vector_db s) (embedder s) (scan_lock s)
    v (metadata_file s) (scan_profile s) (rows s) (vectors s)
    (staged s) (index_dimension s) (files s) (uuid4_drawn s) (reported s) (clock_reads s) (log s).
Definition set_metadata_file (v : option nat) (s : ImageLib) : ImageLib :=
  mkImageLib (local_mode s) (last_scanned s) (table s) (vector_db s) (embedder s) (scan_lock s)
    (embedded_files s) v (scan_profile s) (rows s) (vectors s)
    (staged s) (index_dimension s) (files s) (uuid4_drawn s) (reported s) (clock_reads s) (log s).
Definition set_scan_profile (v : gmap string uuid) (s : ImageLib) : ImageLib :=
  mkImageLib (local_mode s) (last_scanned s) (table s) (vector_db s) (embedder s) (scan_lock s)
    (embedded_files s) (metadata_file s) v (rows s) (vectors s)
    (staged s) (index_dimension s) (files s) (uuid4_drawn s) (reported s) (clock_reads s) (log s).
Definition set_rows (v : list Row) (s : ImageLib) : ImageLib :=
  mkImageLib (local_mode s) (last_scanned s) (table s) (vector_db s) (embedder s) (scan_lock s)
    (embedded_files s) (metadata_file s) (scan_profile s) v (vectors s)
    (staged s) (index_dimension s) (files s) (uuid4_drawn s) (reported s) (clock_reads s) (log s).
Definition set_vectors (v : list (uuid * embedding)) (s : ImageLib) : ImageLib :=
  mkImageLib (local_mode s) (last_scanned s) (table s) (vector_db s) (embedder s) (scan_lock s)
    (embedded_files s) (metadata_file s) (scan_profile s) (rows s) v
    (staged s) (index_dimension s) (files s) (uuid4_drawn s) (reported s) (clock_reads s) (log s).
Definition set_staged (v : list (uuid * embedding)) (s : ImageLib) : ImageLib :=
  mkImageLib (local_mode s) (last_scanned s) (table s) (vector_db s) (embedder s) (scan_lock s)
    (embedded_files s) (metadata_file s) (scan_profile s) (rows s) (vectors s)
    v (index_dimension s) (files s) (uuid4_drawn s) (reported s) (clock_reads s) (log s).
Definition set_index_dimension (v : option Z) (s : ImageLib) : ImageLib :=
  mkImageLib (local_mode s) (last_scanned s) (table s) (vector_db s) (embedder s) (scan_lock s)
    (embedded_files s) (metadata_file s) (scan_profile s) (rows s) (vectors s)
    (staged s) v (files s) (uuid4_drawn s) (reported s) (clock_reads s) (log s).
Definition set_files (v : list string) (s : ImageLib) : ImageLib :=
  mkImageLib (local_mode s) (last_scanned s) (table s) (vector_db s) (embedder s) (scan_lock s)
    (embedded_files s) (metadata_file s) (scan_profile s) (rows s) (vectors s)
    (staged s) (index_dimension s) v (uuid4_drawn s) (reported s) (clock_reads s) (log s).
Definition set_uuid4_drawn (v : nat) (s : ImageLib) : ImageLib :=
  mkImageLib (local_mode s) (last_scanned s) (table s) (vector_db s) (embedder s) (scan_lock s)
    (embedded_files s) (metadata_file s) (scan_profile s) (rows s) (vectors s)
    (staged s) (index_dimension s) (files s) v (reported s) (clock_reads s) (log s).
Definition set_reported (v : list Z) (s : ImageLib) : ImageLib :=
  mkImageLib (local_mode s) (last_scanned s) (table s) (vector_db s) (embedder s) (scan_lock s)
    (embedded_files s) (metadata_file s) (scan_profile s) (rows s) (vectors s)
    (staged s) (index_dimension s) (files s) (uuid4_drawn s) v (clock_reads s) (log s).
Definition set_clock_reads (v : nat) (s : ImageLib) : ImageLib :=
  mkImageLib (local_mode s) (last_scanned s) (table s) (vector_db s) (embedder s) (scan_lock s)
    (embedded_files s) (metadata_file s) (scan_profile s) (rows s) (vectors s)
    (staged s) (index_dimension s) (files s) (uuid4_drawn s) (reported s) v (log s).
Definition set_log (v : list event) (s : ImageLib) : ImageLib :=
  mkImageLib (local_mode s) (last_scanned s) (table s) (vector_db s) (embedder s) (scan_lock s)
    (embedded_files s) (metadata_file s) (scan_profile s) (rows s) (vectors s)
    (staged s) (index_dimension s) (files s) (uuid4_drawn s) (reported s) (clock_reads s) v.

(** ** The monad of a method call: state and exceptions *)

Definition M (A : Type) : Type := ImageLib -> ImageLib * (exn + A).

Definition ret {A : Type} (a : A) : M A := fun s => (s, inr a).
Definition raise {A : Type} (e : exn) : M A := fun s => (s, inl e).
Definition bind {A B : Type} (m : M A) (k : A -> M B) : M B :=
  fun s => match m s with
           | (s', inr a) => k a s'
           | (s', inl e) => (s', inl e)
           end.
Definition gets {A : Type} (f : ImageLib -> A) : M A := fun s => (s, inr (f s)).
Definition modify (f : ImageLib -> ImageLib) : M unit := fun s => (f s, inr tt).

Declare Scope lib_scope.
Delimit Scope lib_scope with lib.
Notation "x <- m ;; k" := (bind m (fun x => k))
  (at level 100, m at next level, k at level 200, right associativity) : lib_scope.
Notation "m ;; k" := (bind m (fun _ => k))
  (at level 100, k at level 200, right associativity) : lib_scope.
Local Open Scope lib_scope.

(** [for x in l: body x] *)
Fixpoint for_each {A : Type} (l : list A) (body : A -> M unit) : M unit :=
  match l with
  | [] => ret tt
  | x :: l' => body x ;; for_each l' body
  end.

(** ** The collaborators of [ImageLib]

    [LibraryBase], [ImageLibTable], [ImageLibVectorDb], [BatchedPipeline]
    and [LockContext] are imported by [image_lib.py]; their behaviour is
    taken from the specification. *)

(** Modelled from the spec: [LibraryBase.metadata_exists], the library
    metadata file is present in the data folder. *)
Definition metadata_exists (s : ImageLib) : bool :=
  bool_decide (is_Some (metadata_file s)).

(** Modelled from the spec: [LibraryBase._save_metadata] persists the
    library metadata, of which [last_scanned] is the field that changes. *)
Definition save_metadata : M unit :=
  modify (fun s => set_log (log s ++ [MetadataSaved (last_scanned s)])
                     (set_metadata_file (Some (last_scanned s)) s)).

(** Modelled from the spec: [LibraryBase._save_scan_profile] persists the
    mapping from relative path to uuid. *)
Definition save_scan_profile : M unit :=
  modify (fun s => set_scan_profile (embedded_files s) s).

(** Modelled from the spec: [LibraryBase.report_progress] hands the
    percentage to the progress reporter when one was given. *)
Definition report_progress (progress_reporter : bool) (progress : Z) : M unit :=
  if progress_reporter
  then modify (fun s => set_reported (reported s ++ [progress]) s)
  else ret tt.

(** Modelled from the spec: [ImageLibTable.insert_row], the id is the
    auto-increment primary key of the table. *)
Definition insert_row (timestamp : nat) (u : uuid) (path filename : string) : M unit :=
  modify (fun s =>
    set_rows (rows s ++ [mkRow (S (list_max (map row_id (rows s)))) timestamp u path filename]) s).

(** Modelled from the spec: [ImageLibTable.delete_row_by_uuid]
    ([sql.delete_by_uuid_sql]: DELETE ... WHERE uuid = ?). *)
Definition delete_row_by_uuid (u : uuid) : M unit :=
  modify (fun s => set_rows (filter (fun r => row_uuid r <> u) (rows s)) s).

(** Modelled from the spec: [ImageLibTable.clean_all_data] empties the
    table. *)
Definition table_clean_all_data : M unit := modify (set_rows []).

(** Modelled from the spec: [ImageLibTable.row_count]. *)
Definition row_count : M nat := gets (fun s => length (rows s)).

(** Modelled from the spec: [ImageLibVectorDb.initialize_index] creates the
    index for vectors of the given dimension. *)
Definition initialize_index (dimension : Z) : M unit :=
  modify (set_index_dimension (Some dimension)).

(** Modelled from the spec: [BatchedPipeline], the batched writer of the
    networked vector store; it flushes the staged writes in insertion
    order. *)
Definition flush (s : ImageLib) : ImageLib :=
  set_staged [] (set_vectors (vectors s ++ staged s) s).

(** Modelled from the spec: [ImageLibVectorDb.add].  With a batch writer the
    write is staged and the batch is flushed when it holds [batch_size]
    writes.  Without one, on the in-process store, adding before
    [initialize_index] is a usage error and a vector whose dimension differs
    from the index's is rejected with no partial write. *)
Definition vector_db_add (batch_size : nat) (u : uuid) (e : embedding) (save_pipeline : bool) : M unit :=
  if save_pipeline then
    modify (fun s =>
      let s' := set_staged (staged s ++ [(u, e)]) s in
      if bool_decide (batch_size <= length (staged s'))%nat then flush s' else s')
  else
    d <- gets index_dimension ;;
    match d with
    | None => raise (VectorDbError "index not initialized")
    | Some d =>
        if bool_decide (d = Z.of_nat (length e))
        then modify (fun s => set_vectors (vectors s ++ [(u, e)]) s)
        else raise (VectorDbError "dimension mismatch")
    end.

(** Modelled from the spec: [ImageLibVectorDb.remove] deletes the vector
    stored under the key. *)
Definition vector_db_remove (u : uuid) : M unit :=
  modify (fun s => set_vectors (filter (fun kv => fst kv <> u) (vectors s)) s).

(** Modelled from the spec: [ImageLibVectorDb.clean_all_data] empties the
    vector store. *)
Definition vector_db_clean_all_data : M unit := modify (set_vectors []).

(** Modelled from the spec: [ImageLibVectorDb.db_is_empty]. *)
Definition db_is_empty : M bool := gets (fun s => bool_decide (vectors s = [])).

(** Modelled from the spec: [ImageLibVectorDb.delete_db] deletes the store
    with its index. *)
Definition delete_db : M unit :=
  modify (fun s => set_index_dimension None (set_vectors [] s)).

(** Modelled from the spec: [ImageLibVectorDb.persist] writes the in-process
    index to the data folder.  The index and its file are one component
    here, so it changes nothing. *)
Definition persist : M unit := ret tt.

(** Modelled from the spec: [with save_pipeline:], leaving the block
    flushes what is still staged. *)
Definition with_save_pipeline {A : Type} (body : M A) : M A :=
  fun s => match body s with (s', r) => (flush s', r) end.

(** Modelled from the spec: [LockContext], a non-blocking try-acquire of the
    lock for the extent of the block; [acquired] tells the body whether the
    lock was obtained, and the lock is released on every exit path when it
    was. *)
Definition with_LockContext {A : Type} (body : bool -> M A) : M A :=
  fun s =>
    if scan_lock s then body false s
    else match body true (set_scan_lock true s) with
         | (s', r) => (set_scan_lock false s', r)
         end.

(** [uuid4()] *)
Definition uuid4 : M uuid :=
  fun s => (set_uuid4_drawn (S (uuid4_drawn s)) s, inr (uuid4_drawn s)).

(** [datetime.now()]: one more reading of the clock. *)
Definition datetime_now (w : World) : M nat :=
  fun s => (set_clock_reads (S (clock_reads s)) s, inr (now w (clock_reads s))).

(** ** Python's float arithmetic

    A Python float is an IEEE 754 binary64 number.  The finite ones are
    rationals, and every operation gives the exact result rounded to the
    nearest binary64 number, ties to the one with an even significand. *)

(** [a / b] rounded to the nearest integer, ties to even *)
Definition round_half_even (a : Z) (b : positive) : Z :=
  let f := a / Zpos b in
  let r := a mod Zpos b in
  match 2 * r ?= Zpos b with
  | Lt => f
  | Gt => f + 1
  | Eq => if Z.even f then f else f + 1
  end.

(** The binary exponent of [n / d]: the [e] with [2^e <= n / d < 2^(e+1)] *)
Definition log2_ratio (n d : positive) : Z :=
  let c := Z.log2 (Zpos n) - Z.log2 (Zpos d) in
  if (if 0 <=? c then Zpos d * 2 ^ c <=? Zpos n else Zpos d <=? Zpos n * 2 ^ (- c))
  then c else c - 1.

(** [n / d] rounded to binary64: a significand of 53 bits, that is a
    multiple of [2^k] for [k] 52 below the binary exponent, and of [2^-1074]
    in the subnormal range.  Results of [2^1024] and more overflow in
    Python; they are left as they are here, no operand below is that
    large. *)
Definition binary64_pos (n d : positive) : Q :=
  let e := log2_ratio n d in
  let k := Z.max (e - 52) (-1074) in
  if 0 <=? k
  then inject_Z (round_half_even (Zpos n) (d * Z.to_pos (2 ^ k)) * 2 ^ k)
  else round_half_even (Zpos n * 2 ^ (- k)) d # Z.to_pos (2 ^ (- k)).

(** A rational rounded to binary64 *)
Definition binary64 (x : Q) : Q :=
  match Qnum x with
  | Z0 => 0%Q
  | Zpos n => binary64_pos n (Qden x)
  | Zneg n => (- binary64_pos n (Qden x))%Q
  end.

(** [i / total] on two ints with [total > 0]: true division gives the
    quotient of the two integers, correctly rounded. *)
Definition true_divide (i total : nat) : Q :=
  binary64 (Z.of_nat i # Pos.of_nat total).

(** [x * y] on floats *)
Definition float_mul (x y : Q) : Q := binary64 (x * y).

(** [int(x)] on a float: truncation towards zero *)
Definition int_of_float (x : Q) : Z := Z.quot (Qnum x) (Zpos (Qden x)).

(** [int(i / total * 100)], the percentage of [__do_scan] *)
Definition current_progress (i total : nat) : Z :=
  int_of_float (float_mul (true_divide i total) 100).

(** ** The methods of [ImageLib] *)

(** [lib_is_ready] *)
Definition lib_is_ready (s : ImageLib) : bool :=
  metadata_exists s && table s && vector_db s && embedder s.

(** Modelled from the spec: the decorator [ensure_lib_is_ready] of
    [LibraryBase] refuses the call on a library that is not ready. *)
Definition ensure_lib_is_ready {A : Type} (method : M A) : M A :=
  ready <- gets lib_is_ready ;;
  if ready then method else raise (LibraryError "Library is not ready").

(** [__write_embedding_entry] *)
Definition write_embedding_entry (w : World) (relative_path : string)
    (e : embedding) (save_pipeline : bool) : M unit :=
  timestamp <- datetime_now w ;;
  u <- uuid4 ;;
  let parent_folder := dirname relative_path in
  let filename := basename relative_path in
  insert_row timestamp u parent_folder filename ;;
  vector_db_add 200 u e save_pipeline ;;
  modify (fun s => set_embedded_files (<[relative_path := u]> (embedded_files s)) s).

(** The body of the loop of [remove_embeddings] *)
Definition remove_embedding (relative_path : string) : M unit :=
  if bool_decide (relative_path = "") then ret tt
  else
    let relative_path := lstrip relative_path in
    ef <- gets embedded_files ;;
    match ef !! relative_path with
    | Some u =>
        vector_db_remove u ;;
        delete_row_by_uuid u ;;
        modify (fun s => set_embedded_files (delete relative_path (embedded_files s)) s)
    | None => ret tt
    end.

(** [remove_embeddings] *)
Definition remove_embeddings (relative_paths : list string) : M unit :=
  ensure_lib_is_ready
    match relative_paths with
    | [] => ret tt
    | _ => for_each relative_paths remove_embedding ;; save_scan_profile
    end.

(** A Python [set] of paths.  CPython iterates a set in the order of its
    hash table, which the code does not control; the order of first
    insertion stands for it here. *)
Definition set_add (x : string) (l : list string) : list string :=
  if bool_decide (x ∈ l) then l else l ++ [x].

(** [__do_scan], up to its loop over [to_be_embedded]: the walk of the
    library folder and, on an incremental run, the removal of the files that
    are gone.  Returns [to_be_embedded]. *)
Definition do_scan_walk (incremental : bool) : M (list string) :=
  fs <- gets files ;;
  ef <- gets embedded_files ;;
  let all_files := foldl (fun acc f => set_add f acc) [] fs in
  if incremental then
    let to_be_embedded :=
      foldl (fun acc f => if bool_decide (is_Some (ef !! f)) then acc else set_add f acc) [] fs in
    let to_be_deleted := filter (fun p => p ∉ all_files) (map fst (map_to_list ef)) in
    match to_be_deleted with
    | [] => ret tt
    | _ => remove_embeddings to_be_deleted
    end ;;
    ret to_be_embedded
  else ret all_files.

(** What the loops of [__scan_and_initialize] do with a yielded item once
    the cancel event has been polled.  [save_pipeline] tells which of the
    two loops runs.  Returns [dimension]. *)
Definition save_yielded (w : World) (scan_only save_pipeline : bool)
    (relative_path : string) (yielded : option embedding) (dimension : Z) : M Z :=
  if scan_only then ret dimension
  else
    match yielded with
    | None | Some [] => raise (LibraryError "Invalid embedding")
    | Some e =>
        lm <- gets local_mode ;;
        dimension <-
          (if save_pipeline then
             ret (if bool_decide (dimension = -1) then Z.of_nat (length e) else dimension)
           else if bool_decide (dimension = -1) && lm then
             initialize_index (Z.of_nat (length e)) ;; ret (Z.of_nat (length e))
           else ret dimension) ;;
        write_embedding_entry w relative_path e save_pipeline ;;
        ret dimension
    end.

(** [cancel_event is not None and cancel_event.is_set()], at the given poll *)
Definition cancelled (cancel_event : option (nat -> bool)) (polls : nat) : bool :=
  match cancel_event with
  | Some is_set => is_set polls
  | None => false
  end.

(** [Image.open(...)] with [verify()] on a file of the library folder, in the
    [try] block of [__do_scan]: tells whether the file is a valid image. *)
Definition image_open (w : World) (relative_path : string) : M bool :=
  fun s => (set_log (log s ++ [ImageOpened relative_path]) s, inr (verify w relative_path)).

(** The loop of [__do_scan] run in step with the loop of
    [__scan_and_initialize] that consumes it: for each item the generator
    validates the image, reports progress, embeds and yields; the consumer
    then polls the cancel event and saves the item.  [polls] counts the
    polls of the cancel event so far.  The generator of the loop without a
    batch writer is started without [scan_only], so it always embeds.
    Returns [dimension]. *)
Fixpoint scan_items (w : World) (progress_reporter : bool)
    (cancel_event : option (nat -> bool)) (scan_only save_pipeline : bool)
    (total : nat) (items : list (nat * string))
    (previous_progress dimension : Z) (polls : nat) : M Z :=
  match items with
  | [] => ret dimension
  | (i, relative_path) :: items' =>
      valid <- image_open w relative_path ;;
      if negb valid then
        scan_items w progress_reporter cancel_event scan_only save_pipeline
                   total items' previous_progress dimension polls
      else
        let current_progress := current_progress i total in
        let changed := bool_decide (current_progress > previous_progress) in
        let previous_progress := if changed then current_progress else previous_progress in
        (if changed then report_progress progress_reporter current_progress else ret tt) ;;
        let yielded : option embedding :=
          if save_pipeline && scan_only then None
          else Some (embed_image_as_list w relative_path) in
        if cancelled cancel_event polls
        then raise (TaskCancellationException "Library initialization cancelled")
        else
          dimension <- save_yielded w scan_only save_pipeline relative_path yielded dimension ;;
          scan_items w progress_reporter cancel_event scan_only save_pipeline
                     total items' previous_progress dimension (S polls)
  end.

(** [enumerate(to_be_embedded)] *)
Definition enumerate (l : list string) : list (nat * string) := imap pair l.

(** One of the two loops of [__scan_and_initialize] over [__do_scan]. *)
Definition scan_loop (w : World) (progress_reporter : bool)
    (cancel_event : option (nat -> bool)) (scan_only save_pipeline : bool) : M Z :=
  to_be_embedded <- do_scan_walk false ;;
  scan_items w progress_reporter cancel_event scan_only save_pipeline
             (length to_be_embedded) (enumerate to_be_embedded) (-1) (-1) 0%nat.

(** [__scan_and_initialize].  [get_save_pipeline] raises
    [NotImplementedError] on the in-process store and gives a
    [BatchedPipeline] on the networked one. *)
Definition scan_and_initialize (w : World) (progress_reporter : bool)
    (cancel_event : option (nat -> bool)) (scan_only : bool) : M unit :=
  lm <- gets local_mode ;;
  let save_pipeline := negb lm in
  dimension <-
    (if save_pipeline
     then with_save_pipeline (scan_loop w progress_reporter cancel_event scan_only true)
     else scan_loop w progress_reporter cancel_event scan_only false) ;;
  if negb scan_only then
    persist ;;
    save_scan_profile ;;
    (if negb lm then initialize_index dimension else ret tt)
  else ret tt.

(** [try: body except TaskCancellationException: handler] *)
Definition except_TaskCancellationException (body handler : M unit) : M unit :=
  fun s => match body s with
           | (s', inl (TaskCancellationException _)) => handler s'
           | r => r
           end.

(** [self.__table = ImageLibTable(...)] and
    [self.__vector_db = ImageLibVectorDb(...)], guarded by the embedder
    check, as [initialize] and [incremental_initialization] both do. *)
Definition load_dbs : M unit :=
  e <- gets embedder ;;
  if negb e then raise (LibraryError "Embedder not set")
  else modify (set_table true) ;; modify (set_vector_db true).

(** The block [with LockContext(self.__scan_lock) as lock:] of
    [initialize]: the full scan under the scan lock. *)
Definition locked_scan (w : World) (progress_reporter : bool)
    (cancel_event : option (nat -> bool)) : M unit :=
  with_LockContext (fun acquired =>
    if negb acquired
    then raise (LockAcquisitionFailure "There is already a scan task running")
    else
      except_TaskCancellationException
        (t <- datetime_now w ;;
         modify (set_last_scanned t) ;;
         save_metadata ;;
         scan_and_initialize w progress_reporter cancel_event false)
        (vector_db_clean_all_data ;; table_clean_all_data)).

(** [initialize] *)
Definition initialize (w : World) (force_init progress_reporter : bool)
    (cancel_event : option (nat -> bool)) : M unit :=
  ready <- gets lib_is_ready ;;
  if ready && negb force_init then ret tt
  else
    (if negb ready then load_dbs else ret tt) ;;
    n <- row_count ;;
    empty <- db_is_empty ;;
    if negb force_init && bool_decide (0 < n)%nat && negb empty then ret tt
    else
      ready <- gets lib_is_ready ;;
      (if ready then vector_db_clean_all_data ;; table_clean_all_data else ret tt) ;;
      locked_scan w progress_reporter cancel_event.

(** [shutil.rmtree(self._path_lib_data)] of a data folder that exists: the
    metadata file, the scan profile, the table and the in-process index are
    in the data folder. *)
Definition rmtree_lib_data (s : ImageLib) : ImageLib :=
  set_metadata_file None (set_scan_profile ∅ (set_rows []
    (if local_mode s then set_index_dimension None (set_vectors [] s) else s))).

(** [demolish] *)
Definition demolish : M unit :=
  with_LockContext (fun acquired =>
    if negb acquired
    then raise (LockAcquisitionFailure
                  "There is already a scan task running, cancel the task and try again")
    else
      lm <- gets local_mode ;;
      (if negb lm then
         v <- gets vector_db ;;
         if negb v
         then raise (LibraryError
                       "For Redis vector DB, the library must be initialized before demolish")
         else delete_db
       else ret tt) ;;
      modify (set_embedder false) ;;
      modify (set_table false) ;;
      modify (set_vector_db false) ;;
      modify rmtree_lib_data).

(** The body of the loop of [delete_files]: [os.remove] when the path names
    a file of the library folder. *)
Definition delete_file (w : World) (relative_path : string) : M unit :=
  if bool_decide (relative_path = "") then ret tt
  else
    let relative_path := lstrip relative_path in
    modify (fun s =>
      set_files (filter (fun f => negb (names w relative_path f)) (files s)) s).

(** [delete_files] *)
Definition delete_files (w : World) (relative_paths : list string) : M unit :=
  match relative_paths with
  | [] => ret tt
  | _ => for_each relative_paths (delete_file w) ;; remove_embeddings relative_paths
  end.

(** [incremental_initialization] *)
Definition incremental_initialization (w : World) (progress_reporter : bool)
    (cancel_event : option (nat -> bool)) : M unit :=
  ef <- gets embedded_files ;;
  if bool_decide (ef = ∅) then initialize w true progress_reporter cancel_event
  else
    ready <- gets lib_is_ready ;;
    if negb ready then load_dbs else ret tt.

(** ** [initialize] up to its scan *)

(** The library once [initialize] has loaded the two stores. *)
Definition loaded (s : ImageLib) : ImageLib :=
  if lib_is_ready s then s else set_vector_db true (set_table true s).

(** The library once [initialize] has purged the existing data. *)
Definition purged (s : ImageLib) : ImageLib :=
  if lib_is_ready s then set_rows [] (set_vectors [] s) else s.

(** [initialize] gets as far as the scan lock: none of its early returns
    applies and the embedder is set. *)
Definition reaches_lock (force_init : bool) (s : ImageLib) : bool :=
  negb (lib_is_ready s && negb force_init)
  && (lib_is_ready s || embedder s)
  && negb (negb force_init && bool_decide (0 < length (rows s))%nat
           && negb (bool_decide (vectors s = []))).

(** [initialize] gets as far as its scan: it reaches the scan lock and the
    lock is free. *)
Definition starts_scan (force_init : bool) (s : ImageLib) : bool :=
  reaches_lock force_init s && negb (scan_lock s).

(** The library when [initialize] enters [__scan_and_initialize]: the lock
    is taken, the clock was read once, and [last_scanned] is set to that
    reading and saved. *)
Definition stamped (w : World) (s : ImageLib) : ImageLib :=
  let t := now w (clock_reads s) in
  set_log (log s ++ [MetadataSaved t])
    (set_metadata_file (Some t)
      (set_last_scanned t (set_clock_reads (S (clock_reads s)) (set_scan_lock true s)))).

(** Between two states the log has grown by images opened, and by nothing
    else: the metadata was not saved. *)
Definition opened_since (s s' : ImageLib) : Prop :=
  exists opened : list string, log s' = log s ++ map ImageOpened opened.

(** How [initialize] leaves its scan: the handler of
    [TaskCancellationException] cleans both stores and lets the call return
    normally, every other outcome is passed on, and the lock is released. *)
Definition after_scan (r : ImageLib * (exn + unit)) : ImageLib * (exn + unit) :=
  match r with
  | (s2, inl (TaskCancellationException _)) =>
      (set_scan_lock false (set_rows [] (set_vectors [] s2)), inr tt)
  | (s2, r) => (set_scan_lock false s2, r)
  end.

(** The clock was not set back between two states, and every row of the
    table that was not there before carries the time of a reading of the
    clock made in between. *)
Definition rows_stamped_since (w : World) (s s' : ImageLib) : Prop :=
  (clock_reads s <= clock_reads s')%nat /\
  forall r, r ∈ rows s' ->
    r ∈ rows s \/
    exists n, (clock_reads s <= n < clock_reads s')%nat /\ row_timestamp r = now w n.

(** ** The notions of the specification *)

(** Dual-store consistency: every uuid of the scan profile has exactly one
    row and exactly one vector. *)
Definition consistent (s : ImageLib) : Prop :=
  forall (p : string) (u : uuid),
    embedded_files s !! p = Some u ->
    length (filter (fun r => row_uuid r = u) (rows s)) = 1%nat /\
    length (filter (fun kv => fst kv = u) (vectors s)) = 1%nat.

(** The paths [remove_embeddings] looks up: the non-empty ones, without
    their leading separators. *)
Definition targets (relative_paths : list string) : list string :=
  lstrip <$> filter (fun p => p <> "") relative_paths.

(** The uuids the scan profile [ef] maps those paths to. *)
Definition removed_uuids (ef : gmap string uuid) (relative_paths : list string) : list uuid :=
  omap (fun p => ef !! p) (targets relative_paths).

(** What [remove_embeddings] has no business with. *)
Definition untouched_by_removal (s s' : ImageLib) : Prop :=
  local_mode s' = local_mode s /\ last_scanned s' = last_scanned s /\
  table s' = table s /\ vector_db s' = vector_db s /\ embedder s' = embedder s /\
  scan_lock s' = scan_lock s /\ metadata_file s' = metadata_file s /\
  staged s' = staged s /\ index_dimension s' = index_dimension s /\
  files s' = files s /\ uuid4_drawn s' = uuid4_drawn s /\ reported s' = reported s /\
  clock_reads s' = clock_reads s /\ log s' = log s.

(** No work of a scan was done between two states: nothing was embedded,
    recorded or reported, the clock was not read, no image was opened, the
    metadata was not saved, and no row or vector was added. *)
Definition no_scan_work (s s' : ImageLib) : Prop :=
  embedded_files s' = embedded_files s /\ scan_profile s' = scan_profile s /\
  last_scanned s' = last_scanned s /\ metadata_file s' = metadata_file s /\
  reported s' = reported s /\ uuid4_drawn s' = uuid4_drawn s /\
  clock_reads s' = clock_reads s /\ log s' = log s /\
  files s' = files s /\ staged s' = staged s /\
  index_dimension s' = index_dimension s /\ scan_lock s' = scan_lock s /\
  (forall r, r ∈ rows s' -> r ∈ rows s) /\
  (forall v, v ∈ vectors s' -> v ∈ vectors s).

(** The values reported between two states of one scan: they follow those
    reported before, each is the percentage of an item of the scan and is
    greater than [previous], and each is greater than the one before it. *)
Definition reports_since (total : nat) (previous : Z) (s s' : ImageLib) : Prop :=
  exists new : list Z,
    reported s' = reported s ++ new /\
    StronglySorted Z.lt new /\
    Forall (fun v => previous < v /\
                     exists i : nat, (i < total)%nat /\ v = current_progress i total) new.

(** A method keeps the relation [R] between the state it starts in and the
    state it leaves, whether it returns or raises. *)
Definition preserves (R : relation ImageLib) {A : Type} (m : M A) : Prop :=
  forall s, R s (fst (m s)).

(** What no step of a scan changes: the metadata, the lock and, outside the
    progress report itself, the reported values. *)
Definition scan_frame (s s' : ImageLib) : Prop :=
  last_scanned s' = last_scanned s /\ metadata_file s' = metadata_file s /\
  reported s' = reported s /\ scan_lock s' = scan_lock s.

(** What the steps of a scan do together. *)
Definition scan_progress (total : nat) (previous : Z) (s s' : ImageLib) : Prop :=
  last_scanned s' = last_scanned s /\ metadata_file s' = metadata_file s /\
  scan_lock s' = scan_lock s /\ reports_since total previous s s'.

(** ** The invariant of a scan and what a scan leaves *)

(** The number of rows, and of vectors written or staged, under a uuid. *)
Definition rows_with (u : uuid) (s : ImageLib) : nat :=
  length (filter (fun r => row_uuid r = u) (rows s)).

Definition vectors_with (u : uuid) (s : ImageLib) : nat :=
  length (filter (fun kv => fst kv = u) (vectors s ++ staged s)).

(** No uuid that [uuid4()] has yet to draw is in use. *)
Definition fresh_uuids (s : ImageLib) : Prop :=
  forall u : uuid, (uuid4_drawn s <= u)%nat ->
    rows_with u s = 0%nat /\ vectors_with u s = 0%nat /\
    forall p : string, embedded_files s !! p <> Some u.

(** No two paths of the scan profile share a uuid. *)
Definition profile_injective (s : ImageLib) : Prop :=
  forall (p q : string) (u : uuid),
    embedded_files s !! p = Some u -> embedded_files s !! q = Some u -> p = q.

(** Every uuid of the scan profile has one row and one vector, written or
    staged. *)
Definition paired (s : ImageLib) : Prop :=
  forall (p : string) (u : uuid),
    embedded_files s !! p = Some u ->
    rows_with u s = 1%nat /\ vectors_with u s = 1%nat.

Definition scan_invariant (s : ImageLib) : Prop :=
  fresh_uuids s /\ profile_injective s /\ paired s.

(** A method keeps the invariant of a scan. *)
Definition keeps_invariant (s s' : ImageLib) : Prop :=
  scan_invariant s -> scan_invariant s'.

(** The cancel event is never set. *)
Definition never_set (cancel_event : option (nat -> bool)) : Prop :=
  forall polls : nat, cancelled cancel_event polls = false.

(** Every exception a method raises satisfies [P]. *)
Definition raises_only (P : exn -> Prop) {A : Type} (m : M A) : Prop :=
  forall (s : ImageLib) (e : exn), snd (m s) = inl e -> P e.

(** Any exception but the cancellation of the task. *)
Definition not_cancellation (e : exn) : Prop :=
  forall msg : string, e <> TaskCancellationException msg.

(** What a scan over [items] has done to the scan profile when it leaves
    [res], started in [s]: the folder is as it was, the profile has gained
    entries of valid items only and lost none, and when the scan was to
    embed and has returned, every valid item has its entry. *)
Definition profile_after (w : World) (scan_only : bool) (items : list (nat * string))
    (s : ImageLib) {A : Type} (res : ImageLib * (exn + A)) : Prop :=
  files (fst res) = files s /\
  (forall q, is_Some (embedded_files (fst res) !! q) ->
             is_Some (embedded_files s !! q) \/
             ((exists i, (i, q) ∈ items) /\ verify w q = true)) /\
  (forall q, is_Some (embedded_files s !! q) -> is_Some (embedded_files (fst res) !! q)) /\
  (scan_only = false -> (exists a, snd res = inr a) ->
   forall i q, (i, q) ∈ items -> verify w q = true ->
   is_Some (embedded_files (fst res) !! q)).

(** What [__scan_and_initialize] has done to the scan profile when it leaves
    [res], started in [s] to embed: as [profile_after] for the files of the
    folder, and when it has returned the scan profile is saved. *)
Definition profile_scanned (w : World) (s : ImageLib) (res : ImageLib * (exn + unit)) : Prop :=
  files (fst res) = files s /\
  (forall q, is_Some (embedded_files (fst res) !! q) ->
             is_Some (embedded_files s !! q) \/ (q ∈ files s /\ verify w q = true)) /\
  (forall q, is_Some (embedded_files s !! q) -> is_Some (embedded_files (fst res) !! q)) /\
  (snd res = inr tt ->
   (forall q, q ∈ files s -> verify w q = true -> is_Some (embedded_files (fst res) !! q)) /\
   scan_profile (fst res) = embedded_files (fst res)).

(** The keys of the scan profile are relative paths as [os.path.relpath]
    gives them: not empty, and without a leading separator. *)
Definition relative_keys (s : ImageLib) : Prop :=
  map_Forall (fun (p : string) (_ : uuid) => p <> "" /\ lstrip p = p) (embedded_files s).

(** The paths of the scan profile whose file is no longer in the folder. *)
Definition gone_paths (s : ImageLib) : list string :=
  filter (fun p => p ∉ files s) (map fst (map_to_list (embedded_files s))).

(** What a scan does not change of the object: its mode and which of its
    parts are set. *)
Definition same_handles (s s' : ImageLib) : Prop :=
  local_mode s' = local_mode s /\ table s' = table s /\
  vector_db s' = vector_db s /\ embedder s' = embedder s.

(** What a scan that only scans leaves as it was. *)
Definition nothing_written (s s' : ImageLib) : Prop :=
  rows s' = rows s /\ vectors s' ++ staged s' = vectors s ++ staged s /\
  embedded_files s' = embedded_files s /\ scan_profile s' = scan_profile s /\
  uuid4_drawn s' = uuid4_drawn s /\ index_dimension s' = index_dimension s /\
  files s' = files s /\ clock_reads s' = clock_reads s.

(** The cancellation of the task. *)
Definition is_cancellation (e : exn) : Prop :=
  exists msg : string, e = TaskCancellationException msg.

(** None of the paths [delete_files] looks up names the file [f]. *)
Definition kept_file (w : World) (relative_paths : list string) (f : string) : bool :=
  forallb (fun t => negb (names w t f)) (targets relative_paths).

(** ** Libraries to evaluate on *)

(** Every file is a valid image, embedded in two dimensions; the clock
    shows 7 when it is first read and 10 more at each further reading; a
    path names the file that is spelled as it is. *)
Definition demo_world : World :=
  mkWorld (fun _ => true) (fun _ => [1; 2]%Q) (fun n => 7 + 10 * n)%nat String.eqb.

(** A new library in local mode as its constructor leaves it, last scanned
    at 0, once [set_embedder] was called; two images are in its folder. *)
Definition fresh_library : ImageLib :=
  mkImageLib true 0 false false true false ∅ (Some 0%nat) ∅ [] [] [] None
             ["a.png"; "d/b.png"] 0 [] 0 [].

(** The same on the networked vector store, with five images. *)
Definition redis_library : ImageLib :=
  mkImageLib false 0 false false true false ∅ (Some 0%nat) ∅ [] [] [] None
             ["1.png"; "2.png"; "3.png"; "4.png"; "5.png"] 0 [] 0 [].

(** The cancel event is set once the first item has been saved. *)
Definition cancel_after_first : option (nat -> bool) :=
  Some (fun polls => bool_decide (1 <= polls)%nat).

(** The new library after its first scan. *)
Definition scanned_library : ImageLib :=
  fst (initialize demo_world false false None fresh_library).

(** Then [d/b.png] is deleted from the folder and [f.png] is added. *)
Definition changed_library : ImageLib := set_files ["a.png"; "f.png"] scanned_library.

(** The scanned library while another task holds the scan lock. *)
Definition busy_library : ImageLib := set_scan_lock true scanned_library.

End ImageLibrary.

(** * Properties of the retrieval pipeline *)

Module RetrieverFacts.

Import Retriever.

(** ** The insertion sort of [np.argsort] is an argsort *)

Section insertion.
Variable scores : list Q.

Lemma insert_index_Permutation vi sorted :
  insert_index scores vi sorted ≡ₚ vi :: sorted.
Proof.
  induction sorted as [|pk rest IH]; simpl; [done|].
  destruct (Qle_bool _ _); [|done].
  rewrite IH. apply perm_swap.
Qed.

Lemma ascending_trans i j k :
  ascending scores i j -> ascending scores j k -> ascending scores i k.
Proof. unfold ascending. apply Qle_trans. Qed.

Lemma insert_index_sorted vi sorted :
  StronglySorted (ascending scores) sorted ->
  StronglySorted (ascending scores) (insert_index scores vi sorted).
Proof.
  induction 1 as [|pk rest Hs IH Hall]; simpl.
  - repeat constructor.
  - destruct (Qle_bool _ _) eqn:Hle.
    + constructor; [done|].
      rewrite insert_index_Permutation. constructor; [|done].
      by apply Qle_bool_iff.
    + assert (ascending scores vi pk) as Hlt.
      { unfold ascending. apply Qlt_le_weak, Qnot_le_lt.
        intros H. apply Qle_bool_iff in H. congruence. }
      constructor; [by constructor|].
      constructor; [done|].
      eapply Forall_impl; [exact Hall|]. intros k Hk. by eapply ascending_trans.
Qed.

Lemma fold_insert_index (todo sorted : list nat) :
  StronglySorted (ascending scores) sorted ->
  let res := fold_left (fun sorted vi => insert_index scores vi sorted) todo sorted in
  res ≡ₚ todo ++ sorted /\ StronglySorted (ascending scores) res.
Proof.
  revert sorted. induction todo as [|vi todo IH]; intros sorted Hs; simpl.
  - done.
  - destruct (IH (insert_index scores vi sorted)) as [Hp Hs'].
    { by apply insert_index_sorted. }
    split; [|done]. rewrite Hp, insert_index_Permutation.
    by rewrite Permutation_middle.
Qed.
End insertion.

Lemma np_argsort_ok : argsort_ok np_argsort.
Proof.
  intros scores. unfold np_argsort.
  destruct (fold_insert_index scores (seq 0 (length scores)) []) as [Hp Hs].
  { constructor. }
  split; [|done]. by rewrite Hp, app_nil_r.
Qed.



(** ** [__rerank] under any argsort *)

Section rerank.
Variable argsort : list Q -> list nat.
Hypothesis argsort_good : argsort_ok argsort.
Variable r : DocEmbeddingRetriever.
Variable text : string.

Lemma fmap_candidate_at_seq candidates :
  candidate_at candidates <$> seq 0 (length candidates) = candidates.
Proof.
  apply list_eq. intros i. rewrite list_lookup_fmap.
  destruct (decide (i < length candidates)%nat) as [Hlt|Hge].
  - rewrite lookup_seq_lt by done. simpl. unfold candidate_at.
    destruct (lookup_lt_is_Some_2 candidates i Hlt) as [c Hc]. by rewrite Hc.
  - rewrite lookup_seq_ge by lia. simpl. symmetry. apply lookup_ge_None. lia.
Qed.

Lemma pick_in_range candidates ids :
  Forall (fun i => (i < length candidates)%nat) ids ->
  pick candidates ids = inr (candidate_at candidates <$> ids).
Proof.
  intros Hall. unfold pick.
  rewrite (mapM_Some_2 _ ids (candidate_at candidates <$> ids)). { reflexivity. }
  apply Forall2_fmap_r, Forall_Forall2_diag.
  eapply Forall_impl; [exact Hall|]. intros i Hi. unfold candidate_at.
  destruct (lookup_lt_is_Some_2 candidates i Hi) as [c Hc]. simpl. rewrite Hc. reflexivity.
Qed.
Lemma score_at candidates i :
  (i < length candidates)%nat ->
  nth i (predict r (map (fun c => (text, c)) candidates)) 0%Q
  = ranker r text (candidate_at candidates i).
Proof.
  unfold predict, candidate_at. rewrite map_map. simpl.
  revert i. induction candidates as [|c cs IH]; intros [|i] Hi; simpl in *; try lia.
  - reflexivity.
  - apply IH. lia.
Qed.

Lemma StronglySorted_rev_flip {A : Type} (R : relation A) l :
  StronglySorted R l -> StronglySorted (flip R) (rev l).
Proof.
  induction 1 as [|x l Hs IH Hall]; simpl; [constructor|].
  apply StronglySorted_app_2; [|done|repeat constructor].
  intros y z Hy Hz. apply list_elem_of_singleton in Hz as ->.
  apply list_elem_of_In, in_rev in Hy. unfold flip.
  eapply Forall_forall in Hall; [exact Hall|by apply list_elem_of_In].
Qed.

Lemma rerank_sorted_ids candidates :
  let scores := predict r (map (fun c => (text, c)) candidates) in
  rev (argsort scores) ≡ₚ seq 0 (length candidates) /\
  StronglySorted (flip (ascending scores)) (rev (argsort scores)).
Proof.
  intros scores. destruct (argsort_good scores) as [Hp Hs].
  split.
  - rewrite <- Permutation_rev, Hp. unfold scores, predict.
    by rewrite !length_map.
  - by apply StronglySorted_rev_flip.
Qed.

Lemma sorted_candidates candidates ids :
  let scores := predict r (map (fun c => (text, c)) candidates) in
  Forall (fun i => (i < length candidates)%nat) ids ->
  StronglySorted (flip (ascending scores)) ids ->
  StronglySorted (descending r text) (candidate_at candidates <$> ids).
Proof.
  intros scores Hall Hs. induction Hs as [|i ids Hs IH Hfa]; simpl; [constructor|].
  inversion Hall as [|? ? Hi Hall']; subst.
  constructor; [by apply IH|].
  apply Forall_fmap, Forall_forall. intros j Hj. simpl.
  assert (j < length candidates)%nat as Hjl.
  { eapply Forall_forall in Hall'; [exact Hall'|exact Hj]. }
  eapply Forall_forall in Hfa; [|exact Hj].
  unfold flip, ascending, scores in Hfa.
  rewrite !score_at in Hfa by done. exact Hfa.
Qed.

Lemma rerank_initialized candidates :
  initialized r ->
  exists ranked,
    rerank argsort r text candidates = inr ranked /\
    ranked ≡ₚ candidates /\
    StronglySorted (descending r text) ranked.
Proof.
  intros [[dp Hdp] [idx Hidx]]. unfold rerank. rewrite Hdp, Hidx.
  destruct (rerank_sorted_ids candidates) as [Hp Hs]. simpl in *.
  set (ids := rev (argsort _)) in *.
  assert (Forall (fun i => (i < length candidates)%nat) ids) as Hall.
  { apply Forall_forall. intros i Hi. rewrite Hp in Hi. apply elem_of_seq in Hi. lia. }
  exists (candidate_at candidates <$> ids). split; [by apply pick_in_range|].
  split.
  - rewrite Hp. by rewrite fmap_candidate_at_seq.
  - by apply sorted_candidates.
Qed.
End rerank.



(** ** [__retrieve] *)

Lemma argsort_nil argsort : argsort_ok argsort -> argsort [] = [].
Proof.
  intros Hok. destruct (Hok []) as [Hp _]. simpl in Hp.
  by apply Permutation_nil_r in Hp.
Qed.

Lemma rerank_nil argsort r text :
  argsort_ok argsort -> initialized r -> rerank argsort r text [] = inr [].
Proof.
  intros Hok [[dp Hdp] [idx Hidx]]. unfold rerank. rewrite Hdp, Hidx. simpl.
  by rewrite (argsort_nil _ Hok).
Qed.

Lemma retrieve_not_initialized r text top_k :
  ~ initialized r -> retrieve r text top_k = ([], inl (ValueError "Not initialized")).
Proof.
  unfold initialized, retrieve. intros Hn.
  destruct (doc_provider r), (index r); try done.
  exfalso. apply Hn. split; by eexists.
Qed.

Lemma retrieve_empty_input r text top_k :
  initialized r -> text = "" \/ top_k <= 0 -> retrieve r text top_k = ([], inr []).
Proof.
  intros [[dp Hdp] [idx Hidx]] Hempty. unfold retrieve. rewrite Hdp, Hidx.
  destruct Hempty as [->|Hk].
  - done.
  - apply Z.leb_le in Hk. rewrite Hk. by rewrite orb_true_r.
Qed.

Lemma not_None_resolved get_record_by_id ids :
  not_None (flat_map (fun i => match get_record_by_id i with
                               | Some record => [message record]
                               | None => []
                               end) ids)
  = resolved_contents get_record_by_id ids.
Proof.
  unfold not_None, resolved_contents.
  induction ids as [|i ids IH]; [done|].
  change (flat_map ?f (i :: ids)) with (f i ++ flat_map f ids).
  rewrite omap_app, IH. simpl.
  by destruct (get_record_by_id i) as [[[m|]]|].
Qed.

Lemma retrieve_request r text top_k search get_record_by_id :
  index r = Some search -> doc_provider r = Some get_record_by_id ->
  text <> "" -> 0 < top_k ->
  exists candidates,
    retrieve r text top_k = ([top_k], inr candidates) /\
    not_None candidates = resolved_contents get_record_by_id (search (transformer r text) top_k).
Proof.
  intros Hidx Hdp Htext Hk. unfold retrieve. rewrite Hdp, Hidx.
  rewrite bool_decide_eq_false_2 by done.
  assert ((top_k <=? 0) = false) as -> by (apply Z.leb_gt; lia). simpl.
  eexists. split; [reflexivity|]. apply not_None_resolved.
Qed.

(** ** The claims on the retrieval pipeline *)

(** C4, as amended.  For every query text and every list of candidate
    strings, [__rerank] on an initialized retriever returns a permutation of
    its input ordered by descending Ranker score, whatever order [np.argsort]
    gives to indices of equal score; and [query(text, k)] returns the first
    [k] elements of the reranked list of the candidates retrieved for
    [k * 20], so at most [k] of them.  Nothing is said of the order of
    candidates of equal score. *)
Theorem rerank_contract argsort r text :
  argsort_ok argsort -> initialized r ->
  (forall candidates, exists ranked,
      rerank argsort r text candidates = inr ranked /\
      ranked ≡ₚ candidates /\
      StronglySorted (descending r text) ranked) /\
  (forall top_k, exists requests candidates ranked,
      retrieve r text (top_k * 20) = (requests, inr candidates) /\
      rerank argsort r text (not_None candidates) = inr ranked /\
      query argsort r text top_k = (requests, inr (take (Z.to_nat top_k) ranked)) /\
      (length (take (Z.to_nat top_k) ranked) <= Z.to_nat top_k)%nat).
Proof.
  intros Hok Hinit. split.
  - intros candidates. by apply rerank_initialized.
  - intros top_k.
    assert (exists requests candidates,
      retrieve r text (top_k * 20) = (requests, inr candidates) /\
      (top_k <= 0 -> candidates = [])) as (requests & candidates & Hret & Hnil).
    { destruct (decide (text = "" \/ top_k * 20 <= 0)) as [Hempty|Hne].
      - exists [], []. split; [by apply retrieve_empty_input|done].
      - destruct Hinit as [[dp Hdp] [idx Hidx]].
        destruct (retrieve_request r text (top_k * 20) idx dp) as (c & Hc & _);
          try done; try lia.
        { intros ->. apply Hne. by left. }
        exists [top_k * 20], c. split; [done|]. intros Hk. exfalso. apply Hne. right. lia. }
    destruct (rerank_initialized argsort Hok r text (not_None candidates) Hinit)
      as (ranked & Hrr & Hperm & _).
    exists requests, candidates, ranked. split; [done|]. split; [done|]. split.
    + unfold query. rewrite Hret, Hrr. f_equal. f_equal. unfold slice_to.
      destruct (0 <=? top_k) eqn:Hk; [done|].
      apply Z.leb_gt in Hk. rewrite Hnil in Hperm by lia. simpl in Hperm.
      apply Permutation_nil_r in Hperm. subst ranked. by rewrite !take_nil.
    + rewrite length_take. lia.
Qed.

Lemma rerank_contract_witness :
  argsort_ok np_argsort /\ initialized demo_retriever /\
  (forall candidates, exists ranked,
      rerank np_argsort demo_retriever "q" candidates = inr ranked /\
      ranked ≡ₚ candidates /\
      StronglySorted (descending demo_retriever "q") ranked) /\
  (forall top_k, exists requests candidates ranked,
      retrieve demo_retriever "q" (top_k * 20) = (requests, inr candidates) /\
      rerank np_argsort demo_retriever "q" (not_None candidates) = inr ranked /\
      query np_argsort demo_retriever "q" top_k
      = (requests, inr (take (Z.to_nat top_k) ranked)) /\
      (length (take (Z.to_nat top_k) ranked) <= Z.to_nat top_k)%nat).
Proof.
  assert (initialized demo_retriever) as Hinit by (split; by eexists).
  split; [exact np_argsort_ok|]. split; [exact Hinit|].
  exact (rerank_contract np_argsort demo_retriever "q" np_argsort_ok Hinit).
Defined.

(** C4 as stated fails on ties: with the insertion sort numpy runs on short
    arrays, two candidates of equal score come out in the reverse of their
    input order, because [__rerank] reverses the ascending argsort. *)
Lemma rerank_ties_counterexample :
  rerank np_argsort tie_retriever "q" ["a"; "b"] = inr ["b"; "a"] /\
  (ranker tie_retriever "q" "a" == ranker tie_retriever "q" "b")%Q /\
  ~ ties_in_input_order tie_retriever "q" ["a"; "b"] ["b"; "a"].
Proof.
  split; [reflexivity|]. split; [reflexivity|].
  intros H. destruct (H 0%nat 1%nat "a" "b") as (p & q & Hpq & Hp & Hq);
    try done; try lia.
  destruct p as [|[|p]]; try done. destruct q as [|[|q]]; try done. lia.
Qed.

(** C6.  For every query text and every [k > 0], every first-stage request
    of [query(text, k)] on an initialized retriever asks for exactly
    [k * 20] neighbors; for a non-empty text there is exactly one such
    request, each returned id is looked up in the record store, ids that
    resolve to no record are dropped without error, and the candidates
    handed to the rerank stage are exactly the contents of the resolved
    records. *)
Theorem query_over_fetch argsort r text top_k search get_record_by_id :
  index r = Some search -> doc_provider r = Some get_record_by_id -> 0 < top_k ->
  Forall (fun n => n = top_k * 20) (fst (query argsort r text top_k)) /\
  (text <> "" ->
   let I0 := search (transformer r text) (top_k * 20) in
   let survivors := resolved_contents get_record_by_id I0 in
   fst (query argsort r text top_k) = [top_k * 20] /\
   (exists candidates,
      retrieve r text (top_k * 20) = ([top_k * 20], inr candidates) /\
      not_None candidates = survivors) /\
   snd (query argsort r text top_k) =
     match rerank argsort r text survivors with
     | inl e => inl e
     | inr ranked => inr (slice_to top_k ranked)
     end /\
   Forall (fun c => exists i record,
             i ∈ I0 /\ get_record_by_id i = Some record /\ message record = Some c)
          survivors).
Proof.
  intros Hidx Hdp Hk.
  assert (text <> "" ->
          exists candidates,
            retrieve r text (top_k * 20) = ([top_k * 20], inr candidates) /\
            not_None candidates =
              resolved_contents get_record_by_id (search (transformer r text) (top_k * 20)))
    as Hreq.
  { intros Htext. apply retrieve_request; try done. lia. }
  split.
  - destruct (decide (text = "")) as [->|Htext].
    + unfold query. rewrite retrieve_empty_input; [|split; by eexists|by left].
      simpl. destruct (rerank _ _ _ _); constructor.
    + destruct (Hreq Htext) as (c & Hc & _). unfold query. rewrite Hc.
      destruct (rerank _ _ _ _); repeat constructor.
  - intros Htext I0 survivors. destruct (Hreq Htext) as (c & Hc & Hs).
    fold I0 in Hs. fold survivors in Hs.
    split; [|split; [|split]].
    + unfold query. rewrite Hc. by destruct (rerank _ _ _ _).
    + by exists c.
    + unfold query. rewrite Hc, Hs. by destruct (rerank _ _ _ _).
    + apply Forall_forall. intros m Hm. unfold survivors, resolved_contents in Hm.
      apply list_elem_of_omap in Hm as (i & Hi & Hm).
      destruct (get_record_by_id i) as [record|] eqn:Hrec; [|done].
      by exists i, record.
Qed.

Lemma query_over_fetch_witness :
  index demo_retriever = Some demo_search /\
  doc_provider demo_retriever = Some demo_get_record_by_id /\
  0 < 1 /\
  Forall (fun n => n = 1 * 20) (fst (query np_argsort demo_retriever "q" 1)) /\
  ("q" <> "" ->
   let I0 := demo_search (transformer demo_retriever "q") (1 * 20) in
   let survivors := resolved_contents demo_get_record_by_id I0 in
   fst (query np_argsort demo_retriever "q" 1) = [1 * 20] /\
   (exists candidates,
      retrieve demo_retriever "q" (1 * 20) = ([1 * 20], inr candidates) /\
      not_None candidates = survivors) /\
   snd (query np_argsort demo_retriever "q" 1) =
     match rerank np_argsort demo_retriever "q" survivors with
     | inl e => inl e
     | inr ranked => inr (slice_to 1 ranked)
     end /\
   Forall (fun c => exists i record,
             i ∈ I0 /\ demo_get_record_by_id i = Some record /\
             message record = Some c)
          survivors).
Proof.
  split; [reflexivity|]. split; [reflexivity|]. split; [lia|].
  apply (query_over_fetch np_argsort demo_retriever "q" 1
           demo_search demo_get_record_by_id); [reflexivity|reflexivity|lia].
Defined.

(** C7.  On a retriever that is not initialized, [query] and [__retrieve]
    raise the usage error [ValueError('Not initialized')] for every input.
    On an initialized one, [query] and [__retrieve] return the empty list,
    without raising, for the empty text with every [k], and for every text
    with every [k <= 0]. *)
Theorem query_precondition_and_empty_input argsort r :
  argsort_ok argsort ->
  (~ initialized r -> forall text top_k,
      retrieve r text top_k = ([], inl (ValueError "Not initialized")) /\
      query argsort r text top_k = ([], inl (ValueError "Not initialized"))) /\
  (initialized r ->
      (forall top_k,
          retrieve r "" top_k = ([], inr []) /\
          query argsort r "" top_k = ([], inr [])) /\
      (forall text top_k, top_k <= 0 ->
          retrieve r text top_k = ([], inr []) /\
          query argsort r text top_k = ([], inr []))).
Proof.
  intros Hok. split.
  - intros Hn text top_k. split; [by apply retrieve_not_initialized|].
    unfold query. by rewrite retrieve_not_initialized.
  - intros Hinit.
    assert (forall text top_k, text = "" \/ top_k <= 0 ->
              query argsort r text top_k = ([], inr [])) as Hq.
    { intros text top_k Hempty. unfold query.
      rewrite retrieve_empty_input; [|done|destruct Hempty; [by left|right; lia]].
      simpl. rewrite rerank_nil by done. unfold slice_to.
      destruct (0 <=? top_k); by rewrite take_nil. }
    split.
    + intros top_k. split; [apply retrieve_empty_input; auto|apply Hq; auto].
    + intros text top_k Hk. split; [apply retrieve_empty_input; auto|apply Hq; auto].
Qed.

Lemma query_precondition_and_empty_input_witness :
  argsort_ok np_argsort /\
  (~ initialized demo_retriever -> forall text top_k,
      retrieve demo_retriever text top_k = ([], inl (ValueError "Not initialized")) /\
      query np_argsort demo_retriever text top_k
      = ([], inl (ValueError "Not initialized"))) /\
  (initialized demo_retriever ->
      (forall top_k,
          retrieve demo_retriever "" top_k = ([], inr []) /\
          query np_argsort demo_retriever "" top_k = ([], inr [])) /\
      (forall text top_k, top_k <= 0 ->
          retrieve demo_retriever text top_k = ([], inr []) /\
          query np_argsort demo_retriever text top_k = ([], inr []))).
Proof.
  split; [exact np_argsort_ok|].
  exact (query_precondition_and_empty_input np_argsort demo_retriever np_argsort_ok).
Defined.

(** ** [initialize] *)

(** X11.  [DocEmbeddingRetriever.initialize] never builds an index: the
    index after the call is the index before it.  The call returns normally
    only through its early return, with an index present and no
    [raw_doc_path], and then the retriever is unchanged.  On a retriever
    without an index it raises, and every later [query] still raises
    [ValueError('Not initialized')]. *)
Theorem initialize_builds_no_index provider r index_filename chat_name raw_doc_path :
  let res := initialize provider r index_filename chat_name raw_doc_path in
  index (fst res) = index r /\
  (snd res = inr tt -> fst res = r /\ is_Some (index r) /\ truthy raw_doc_path = false) /\
  (index r = None ->
   snd res <> inr tt /\
   forall argsort text top_k,
     query argsort (fst res) text top_k = ([], inl (ValueError "Not initialized"))).
Proof.
  cbv zeta. unfold initialize.
  destruct (bool_decide_reflect (is_Some (index r))) as [Hidx|Hidx]; cbn [andb].
  - destruct (truthy raw_doc_path) eqn:Hpath; cbn [negb].
    + destruct (provider chat_name raw_doc_path) as [e|p]; cbn [fst snd].
      * split; [done|]. split; [done|]. intros Hnone. rewrite Hnone in Hidx.
        by destruct Hidx.
      * split; [done|]. split; [done|]. intros Hnone. rewrite Hnone in Hidx.
        by destruct Hidx.
    + cbn [fst snd]. split; [done|]. split; [done|].
      intros Hnone. rewrite Hnone in Hidx. by destruct Hidx.
  - assert (forall r', index r' = index r ->
              forall argsort text top_k,
                query argsort r' text top_k = ([], inl (ValueError "Not initialized")))
      as Hquery.
    { intros r' Heq argsort text top_k. unfold query.
      rewrite retrieve_not_initialized; [done|].
      intros [_ Hsome]. by rewrite Heq in Hsome. }
    destruct (provider chat_name raw_doc_path) as [e|p]; cbn [fst snd].
    + split; [done|]. split; [done|]. intros _. split; [done|]. by apply Hquery.
    + split; [done|]. split; [done|]. intros _. split; [done|]. by apply Hquery.
Qed.

End RetrieverFacts.

(** * Properties of the image library *)

Module ImageLibraryFacts.

Import ImageLibrary.
Local Open Scope lib_scope.

(** ** The percentage of a scan *)

Lemma round_half_even_nonneg a b : 0 <= a -> 0 <= round_half_even a b.
Proof.
  intros Ha. unfold round_half_even.
  assert (0 <= a / Z.pos b) by (apply Z.div_pos; lia).
  destruct (2 * (a mod Z.pos b) ?= Z.pos b); [destruct (Z.even _)|..]; lia.
Qed.

(** Rounding to an integer does not pass an integer. *)
Lemma round_half_even_le a b N : a <= N * Z.pos b -> round_half_even a b <= N.
Proof.
  intros Ha. unfold round_half_even.
  pose proof (Z.div_mod a (Z.pos b) ltac:(lia)) as Hdm.
  pose proof (Z.mod_pos_bound a (Z.pos b) ltac:(lia)) as Hm.
  assert (Hf : a / Z.pos b <= N) by (apply Z.div_le_upper_bound; lia).
  destruct (Z.eq_dec (a / Z.pos b) N) as [Heq|Hne].
  - assert (a mod Z.pos b = 0) as -> by nia.
    destruct (Z.compare_spec (2 * 0) (Z.pos b)); lia.
  - destruct (2 * (a mod Z.pos b) ?= Z.pos b); [destruct (Z.even _)|..]; lia.
Qed.

Lemma log2_ratio_le n d B :
  0 < B -> Z.pos n <= B * Z.pos d -> log2_ratio n d <= Z.log2 B + 1.
Proof.
  intros HB Hle. unfold log2_ratio.
  assert (Z.log2 (Z.pos n) <= Z.log2 B + Z.log2 (Z.pos d) + 1).
  { etrans; [apply Z.log2_le_mono, Hle|]. apply Z.log2_mul_above; lia. }
  destruct (if 0 <=? _ then _ else _); lia.
Qed.

Lemma binary64_pos_bounded n d B :
  0 < B <= 100 -> Z.pos n <= B * Z.pos d ->
  (0 <= binary64_pos n d <= inject_Z B)%Q.
Proof.
  intros HB Hle. unfold binary64_pos.
  pose proof (log2_ratio_le n d B ltac:(lia) Hle) as He.
  assert (Z.log2 B <= 6).
  { change 6 with (Z.log2 100). apply Z.log2_le_mono. lia. }
  set (k := Z.max _ _). assert (Hk : k < 0) by lia.
  destruct (Z.leb_spec 0 k) as [|_]; [lia|].
  assert (Hp : 0 < 2 ^ (- k)) by (apply Z.pow_pos_nonneg; lia).
  set (m := round_half_even _ _).
  assert (0 <= m) by (apply round_half_even_nonneg; nia).
  assert (m <= B * 2 ^ (- k)) by (apply round_half_even_le; nia).
  unfold Qle; simpl. rewrite Z2Pos.id by done. lia.
Qed.

(** Rounding to binary64 keeps a value between 0 and an integer [B] up to
    100: there the unit in the last place is a negative power of two, so
    [B] is a binary64 number itself and rounding does not pass it. *)
Lemma binary64_bounded x B :
  0 < B <= 100 -> (0 <= x <= inject_Z B)%Q -> (0 <= binary64 x <= inject_Z B)%Q.
Proof.
  intros HB [H0 Hx]. destruct x as [n d]. unfold binary64. simpl.
  unfold Qle in H0, Hx; simpl in H0, Hx.
  destruct n as [|n|n]; [|apply binary64_pos_bounded; lia|lia].
  unfold Qle; simpl; lia.
Qed.

Lemma int_of_float_bounded x B :
  (0 <= x <= inject_Z B)%Q -> 0 <= int_of_float x <= B.
Proof.
  intros [H0 Hx]. destruct x as [n d]. unfold int_of_float; simpl.
  unfold Qle in H0, Hx; simpl in H0, Hx.
  split; [apply Z.quot_pos; lia|].
  rewrite Z.quot_div_nonneg by lia. apply Z.div_le_upper_bound; lia.
Qed.

(** For an item of a scan, [0 <= i < total]: the quotient rounds to a float
    in [0, 1], its product with 100 to a float in [0, 100], and the
    truncation of that is an integer from 0 to 100. *)
Lemma current_progress_in_range (i total : nat) :
  (i < total)%nat -> 0 <= current_progress i total <= 100.
Proof.
  intros Hi. unfold current_progress, float_mul, true_divide.
  apply int_of_float_bounded, (binary64_bounded _ 100); [lia|].
  assert (0 <= binary64 (Z.of_nat i # Pos.of_nat total) <= inject_Z 1)%Q as [H0 H1].
  { apply binary64_bounded; [lia|]. unfold Qle; simpl.
    assert (Z.pos (Pos.of_nat total) = Z.of_nat total) by lia. lia. }
  split.
  - apply Qmult_le_0_compat; [done|]. by unfold Qle.
  - change (inject_Z 100) with (inject_Z 1 * 100)%Q.
    apply Qmult_le_compat_r; [done|]. by unfold Qle.
Qed.

(** [round_half_even a b] is an integer nearest to [a / b]. *)
Lemma round_half_even_nearest a b :
  Z.abs (2 * (a - round_half_even a b * Z.pos b)) <= Z.pos b.
Proof.
  unfold round_half_even.
  pose proof (Z.div_mod a (Z.pos b) ltac:(lia)) as Hdm.
  pose proof (Z.mod_pos_bound a (Z.pos b) ltac:(lia)) as Hm.
  destruct (Z.compare_spec (2 * (a mod Z.pos b)) (Z.pos b)); [destruct (Z.even _)|..]; nia.
Qed.

(** [log2_ratio n d] is the binary exponent of [n / d]. *)
Lemma log2_ratio_spec n d :
  let e := log2_ratio n d in
  if 0 <=? e
  then Z.pos d * 2 ^ e <= Z.pos n < Z.pos d * 2 ^ (e + 1)
  else Z.pos d <= Z.pos n * 2 ^ (- e) /\ Z.pos n * 2 ^ (- e - 1) < Z.pos d.
Proof.
  cbv zeta. unfold log2_ratio.
  pose proof (Z.log2_spec (Z.pos n) ltac:(lia)) as [Hn1 Hn2].
  pose proof (Z.log2_spec (Z.pos d) ltac:(lia)) as [Hd1 Hd2].
  pose proof (Z.log2_nonneg (Z.pos n)) as Hn0.
  pose proof (Z.log2_nonneg (Z.pos d)) as Hd0.
  set (a := Z.log2 (Z.pos n)) in *. set (b := Z.log2 (Z.pos d)) in *.
  rewrite Z.pow_succ_r in Hn2, Hd2 by done.
  destruct (Z.leb_spec 0 (a - b)) as [Hc|Hc].
  - (* a = b + c, c >= 0 *)
    assert (2 ^ a = 2 ^ b * 2 ^ (a - b)) as Ha.
    { rewrite <- Z.pow_add_r by lia. f_equal. lia. }
    assert (0 < 2 ^ (a - b)) by (apply Z.pow_pos_nonneg; lia).
    assert (0 < 2 ^ b) by (apply Z.pow_pos_nonneg; lia).
    destruct (Z.leb_spec (Z.pos d * 2 ^ (a - b)) (Z.pos n)) as [Hle|Hgt].
    + destruct (Z.leb_spec 0 (a - b)); [|lia]. split; [done|].
      rewrite Z.pow_add_r by lia. change (2 ^ 1) with 2. nia.
    + destruct (Z.leb_spec 0 (a - b - 1)) as [Hc1|Hc1].
      * replace (a - b - 1 + 1) with (a - b) by lia. split; [|done].
        assert (2 ^ (a - b) = 2 * 2 ^ (a - b - 1)) as Hp.
        { rewrite <- Z.pow_succ_r by lia. f_equal. lia. }
        nia.
      * assert (a - b = 0) as Hz by lia. rewrite Hz in *.
        replace (- (0 - 1)) with 1 by lia. replace (- (0 - 1) - 1) with 0 by lia.
        change (2 ^ 1) with 2. change (2 ^ 0) with 1 in *. nia.
  - (* b = a + c', c' > 0 *)
    assert (2 ^ b = 2 ^ a * 2 ^ (- (a - b))) as Hb.
    { rewrite <- Z.pow_add_r by lia. f_equal. lia. }
    assert (0 < 2 ^ (- (a - b))) by (apply Z.pow_pos_nonneg; lia).
    assert (0 < 2 ^ a) by (apply Z.pow_pos_nonneg; lia).
    assert (2 ^ (- (a - b)) = 2 * 2 ^ (- (a - b) - 1)) as Hp.
    { rewrite <- Z.pow_succ_r by lia. f_equal. lia. }
    assert (0 < 2 ^ (- (a - b) - 1)) by (apply Z.pow_pos_nonneg; lia).
    destruct (Z.leb_spec (Z.pos d) (Z.pos n * 2 ^ (- (a - b)))) as [Hle|Hgt].
    + destruct (Z.leb_spec 0 (a - b)); [lia|]. split; [done|]. nia.
    + destruct (Z.leb_spec 0 (a - b - 1)); [lia|].
      replace (- (a - b - 1)) with (- (a - b) + 1) by lia.
      replace (- (a - b) + 1 - 1) with (- (a - b)) by lia.
      rewrite Z.pow_add_r by lia. change (2 ^ 1) with 2. split; [|done]. nia.
Qed.

(** Binary64 is not exact arithmetic: Python gives [int(29 / 100 * 100)] as
    28, and so does [current_progress]. *)
Lemma current_progress_rounds :
  current_progress 29 100 = 28 /\ current_progress 57 100 = 56 /\
  current_progress 1 3 = 33 /\ current_progress 99 100 = 99 /\
  Qred (true_divide 1 10) = (3602879701896397 # 36028797018963968)%Q.
Proof. vm_compute. repeat split. Qed.

(** ** [remove_embeddings] *)

Lemma filter_all {A : Type} (P : A -> Prop) `{forall x, Decision (P x)} (l : list A) :
  (forall x, x ∈ l -> P x) -> filter P l = l.
Proof.
  induction l as [|x l IH]; intros Hall; [done|].
  rewrite filter_cons_True by (apply Hall; left).
  f_equal. apply IH. intros y Hy. apply Hall. by right.
Qed.

Lemma lookup_foldl_delete (ts : list string) (m : gmap string uuid) (p : string) :
  foldl (fun m t => delete t m) m ts !! p
  = if bool_decide (p ∈ ts) then None else m !! p.
Proof.
  revert m. induction ts as [|t ts IH]; intros m; simpl; [done|].
  rewrite IH. destruct (decide (p = t)) as [->|Hne].
  - rewrite lookup_delete_eq.
    rewrite (bool_decide_eq_true_2 (t ∈ t :: ts)) by apply list_elem_of_here.
    by destruct (bool_decide _).
  - rewrite lookup_delete_ne by done.
    destruct (decide (p ∈ ts)) as [Hin|Hnin].
    + rewrite !bool_decide_eq_true_2; [done|by right|done].
    + rewrite !bool_decide_eq_false_2; [done|by apply not_elem_of_cons|done].
Qed.

Lemma removed_after_delete (ef : gmap string uuid) (q : string) (u x : uuid)
    (ts : list string) :
  ef !! q = Some u -> x <> u ->
  x ∈ omap (fun p => delete q ef !! p) ts <-> x ∈ omap (fun p => ef !! p) ts.
Proof.
  intros Hq Hx. rewrite !list_elem_of_omap. split.
  - intros (t & Ht & Hl). exists t. split; [done|].
    apply lookup_delete_Some in Hl. tauto.
  - intros (t & Ht & Hl). exists t. split; [done|].
    apply lookup_delete_Some. split; [|done]. intros <-. congruence.
Qed.

Lemma remove_embedding_absent (p : string) (s : ImageLib) :
  p = "" \/ embedded_files s !! lstrip p = None ->
  remove_embedding p s = (s, inr tt).
Proof.
  intros H. unfold remove_embedding.
  destruct (decide (p = "")) as [->|Hp]; [done|].
  rewrite bool_decide_eq_false_2 by done.
  destruct H as [?|H]; [done|]. unfold bind, gets. by rewrite H.
Qed.

Lemma remove_embedding_present (p : string) (u : uuid) (s : ImageLib) :
  p <> "" -> embedded_files s !! lstrip p = Some u ->
  remove_embedding p s =
    (set_embedded_files (delete (lstrip p) (embedded_files s))
       (set_rows (filter (fun r => row_uuid r <> u) (rows s))
          (set_vectors (filter (fun kv => fst kv <> u) (vectors s)) s)), inr tt).
Proof.
  intros Hp H. unfold remove_embedding.
  rewrite bool_decide_eq_false_2 by done. unfold bind, gets. by rewrite H.
Qed.

Lemma filter_removed_step {A : Type} (key : A -> uuid) (ef : gmap string uuid)
    (q : string) (u : uuid) (ts : list string) (l : list A) :
  ef !! q = Some u ->
  filter (fun x => key x ∉ omap (fun p => delete q ef !! p) ts)
         (filter (fun x => key x <> u) l)
  = filter (fun x => key x ∉ omap (fun p => ef !! p) (q :: ts)) l.
Proof.
  intros Hq. rewrite list_filter_filter. apply list_filter_iff. intros x.
  simpl. rewrite Hq. rewrite not_elem_of_cons. split.
  - intros [Hx Hne]. split; [done|]. by rewrite <- (removed_after_delete ef q u).
  - intros [Hne Hx]. split; [|done]. by rewrite (removed_after_delete ef q u).
Qed.

Lemma for_each_remove_embedding (relative_paths : list string) (s : ImageLib) :
  exists s',
    for_each relative_paths remove_embedding s = (s', inr tt) /\
    embedded_files s' = foldl (fun m t => delete t m) (embedded_files s) (targets relative_paths) /\
    rows s' = filter (fun r => row_uuid r ∉ removed_uuids (embedded_files s) relative_paths) (rows s) /\
    vectors s' = filter (fun kv => fst kv ∉ removed_uuids (embedded_files s) relative_paths) (vectors s) /\
    scan_profile s' = scan_profile s /\
    untouched_by_removal s s'.
Proof.
  revert s. induction relative_paths as [|p ps IH]; intros s.
  - exists s. split; [done|]. split; [done|].
    split; [|split; [|done]]; symmetry; apply filter_all; intros x _; apply not_elem_of_nil.
  - simpl. unfold bind.
    destruct (decide (p = "" \/ embedded_files s !! lstrip p = None)) as [Habs|Hpres].
    + rewrite remove_embedding_absent by done.
      destruct (IH s) as (s' & Hrun & Hef & Hrows & Hvec & Hprof & Hframe).
      exists s'. split; [done|].
      assert (removed_uuids (embedded_files s) (p :: ps)
              = removed_uuids (embedded_files s) ps) as Hrem.
      { unfold removed_uuids, targets. destruct Habs as [->|Hnone]; [done|].
        destruct (decide (p = "")) as [->|Hp]; [done|].
        rewrite filter_cons_True by done. simpl. by rewrite Hnone. }
      rewrite Hrem. split; [|done].
      rewrite Hef. unfold targets. destruct Habs as [->|Hnone]; [done|].
      destruct (decide (p = "")) as [->|Hp]; [done|].
      rewrite filter_cons_True by done. simpl. by rewrite delete_id.
    + assert (p <> "") as Hp by tauto.
      destruct (embedded_files s !! lstrip p) as [u|] eqn:Hu; [|tauto].
      rewrite (remove_embedding_present p u) by done.
      match goal with |- context [for_each ps remove_embedding ?s1] =>
        destruct (IH s1) as (s' & Hrun & Hef & Hrows & Hvec & Hprof & Hframe) end.
      simpl in *. exists s'. split; [done|].
      unfold removed_uuids, targets in *. rewrite filter_cons_True by done.
      split; [done|]. split; [|split; [|done]].
      * rewrite Hrows. by apply (filter_removed_step row_uuid).
      * rewrite Hvec. by apply (filter_removed_step fst).
Qed.



(** ** The claims on [remove_embeddings]

    C10.  On a ready library, for every list of relative paths,
    [remove_embeddings] returns without error; it removes the scan profile
    entry of exactly the paths that, once their leading separators are
    stripped, are in the scan profile, and the rows and vectors keyed by the
    uuids the profile maps those paths to; empty paths and paths absent from
    the profile are skipped; every other profile entry, row and vector, and
    every other part of the library, is left as it was (the saved scan
    profile is rewritten from the one in memory when the list is not
    empty). *)
Theorem remove_embeddings_frame (s : ImageLib) (relative_paths : list string) :
  lib_is_ready s = true ->
  exists s',
    remove_embeddings relative_paths s = (s', inr tt) /\
    (forall p, embedded_files s' !! p =
               if bool_decide (p ∈ targets relative_paths) then None
               else embedded_files s !! p) /\
    rows s' = filter (fun r => row_uuid r ∉ removed_uuids (embedded_files s) relative_paths) (rows s) /\
    vectors s' = filter (fun kv => fst kv ∉ removed_uuids (embedded_files s) relative_paths) (vectors s) /\
    scan_profile s' = (if bool_decide (relative_paths = []) then scan_profile s
                       else embedded_files s') /\
    untouched_by_removal s s'.
Proof.
  intros Hready.
  destruct (for_each_remove_embedding relative_paths s)
    as (s' & Hrun & Hef & Hrows & Hvec & Hprof & Hframe).
  unfold remove_embeddings, ensure_lib_is_ready, bind, gets. rewrite Hready.
  destruct relative_paths as [|p ps].
  - simpl in Hrun. injection Hrun as <-. exists s. split; [done|].
    split; [done|]. by rewrite <- Hrows, <- Hvec.
  - rewrite Hrun. unfold save_scan_profile, modify.
    eexists. split; [reflexivity|]. simpl.
    split; [|done]. intros q. rewrite Hef. apply lookup_foldl_delete.
Qed.

(** ** Frames of the scan *)

Section preserves.
Variable R : relation ImageLib.
Hypothesis R_refl : forall s, R s s.
Hypothesis R_trans : forall s1 s2 s3, R s1 s2 -> R s2 s3 -> R s1 s3.

Lemma preserves_ret {A : Type} (a : A) : preserves R (ret a).
Proof. intros s. apply R_refl. Qed.

Lemma preserves_raise {A : Type} (e : exn) : preserves R (@raise A e).
Proof. intros s. apply R_refl. Qed.

Lemma preserves_gets {A : Type} (f : ImageLib -> A) : preserves R (gets f).
Proof. intros s. apply R_refl. Qed.

Lemma preserves_modify (f : ImageLib -> ImageLib) :
  (forall s, R s (f s)) -> preserves R (modify f).
Proof. intros H s. apply H. Qed.

Lemma preserves_bind {A B : Type} (m : M A) (k : A -> M B) :
  preserves R m -> (forall a, preserves R (k a)) -> preserves R (bind m k).
Proof.
  intros Hm Hk s. unfold bind. specialize (Hm s).
  destruct (m s) as [s1 [e|a]]; simpl in *; [done|].
  eapply R_trans; [exact Hm|apply Hk].
Qed.

Lemma preserves_for_each {A : Type} (l : list A) (body : A -> M unit) :
  (forall x, preserves R (body x)) -> preserves R (for_each l body).
Proof.
  intros Hb. induction l as [|x l IH]; simpl.
  - apply preserves_ret.
  - apply preserves_bind; [apply Hb|by intros _].
Qed.
End preserves.

Lemma scan_frame_refl s : scan_frame s s.
Proof. by repeat split. Qed.

Lemma scan_frame_trans s1 s2 s3 : scan_frame s1 s2 -> scan_frame s2 s3 -> scan_frame s1 s3.
Proof. unfold scan_frame. intros (?&?&?&?) (?&?&?&?). repeat split; congruence. Qed.

Create HintDb scan_frames.

Ltac frame_step :=
  match goal with
  | |- preserves _ _ => solve [auto 1 with scan_frames nocore]
  | |- preserves _ (ret _) => apply (preserves_ret _ scan_frame_refl)
  | |- preserves _ (raise _) => apply (preserves_raise _ scan_frame_refl)
  | |- preserves _ (gets _) => apply (preserves_gets _ scan_frame_refl)
  | |- preserves _ (bind _ _) => apply (preserves_bind _ scan_frame_trans); [|intros ?]
  | |- preserves _ (for_each _ _) =>
      apply (preserves_for_each _ scan_frame_refl scan_frame_trans); intros ?
  | |- preserves _ (modify _) => apply preserves_modify; intros ?; by repeat split
  | |- preserves _ (if ?b then _ else _) => destruct b
  | |- preserves _ (match ?x with _ => _ end) => destruct x
  end.

Lemma write_embedding_entry_frame w relative_path e save_pipeline :
  preserves scan_frame (write_embedding_entry w relative_path e save_pipeline).
Proof.
  unfold write_embedding_entry, insert_row, vector_db_add.
  apply (preserves_bind _ scan_frame_trans).
  { intros s. by repeat split. }
  intros timestamp. apply (preserves_bind _ scan_frame_trans).
  { intros s. by repeat split. }
  intros u. repeat frame_step.
  apply preserves_modify. intros s. unfold flush. simpl.
  destruct (bool_decide _); by repeat split.
Qed.

#[local] Hint Resolve write_embedding_entry_frame : scan_frames.

Lemma save_yielded_frame w scan_only save_pipeline relative_path yielded dimension :
  preserves scan_frame (save_yielded w scan_only save_pipeline relative_path yielded dimension).
Proof.
  unfold save_yielded, initialize_index.
  repeat frame_step.
Qed.

#[local] Hint Resolve save_yielded_frame : scan_frames.

Lemma remove_embeddings_scan_frame relative_paths :
  preserves scan_frame (remove_embeddings relative_paths).
Proof.
  unfold remove_embeddings, ensure_lib_is_ready, save_scan_profile.
  repeat frame_step.
  unfold remove_embedding, vector_db_remove, delete_row_by_uuid.
  repeat frame_step.
Qed.

#[local] Hint Resolve remove_embeddings_scan_frame : scan_frames.

Lemma do_scan_walk_frame incremental :
  preserves scan_frame (do_scan_walk incremental).
Proof. unfold do_scan_walk. repeat frame_step. Qed.

#[local] Hint Resolve do_scan_walk_frame : scan_frames.



Section reports.
Variable w : World.
Variable total : nat.

Lemma scan_progress_frame previous s s' : scan_frame s s' -> scan_progress total previous s s'.
Proof.
  intros (Hl & Hm & Hr & Hk). repeat split; try done.
  exists []. rewrite app_nil_r. repeat split; [done|constructor|constructor].
Qed.

Lemma scan_progress_frame_l previous s s1 s' :
  scan_frame s s1 -> scan_progress total previous s1 s' -> scan_progress total previous s s'.
Proof.
  intros (Hl & Hm & Hr & Hk) (Hl' & Hm' & Hk' & new & Hnew & Hs & Hall).
  repeat split; try congruence. exists new. by rewrite <- Hr.
Qed.

Lemma scan_progress_weaken previous previous' s s' :
  previous <= previous' -> scan_progress total previous' s s' -> scan_progress total previous s s'.
Proof.
  intros Hle (Hl & Hm & Hk & new & Hnew & Hs & Hall).
  repeat split; try done. exists new. repeat split; try done.
  eapply Forall_impl; [exact Hall|]. intros v [Hv Hi]. split; [lia|done].
Qed.

Lemma scan_progress_report previous i s s' :
  (i < total)%nat -> previous < current_progress i total ->
  scan_progress total (current_progress i total) (set_reported (reported s ++ [current_progress i total]) s) s' ->
  scan_progress total previous s s'.
Proof.
  intros Hi Hlt (Hl & Hm & Hk & new & Hnew & Hs & Hall). simpl in *.
  repeat split; try done. exists (current_progress i total :: new).
  split; [by rewrite Hnew, <- app_assoc|]. split.
  - constructor; [done|]. eapply Forall_impl; [exact Hall|]. by intros v [Hv _].
  - constructor; [by eauto|].
    eapply Forall_impl; [exact Hall|]. intros v [Hv Hex]. split; [lia|done].
Qed.

Lemma scan_items_progress progress_reporter cancel_event scan_only save_pipeline
    (items : list (nat * string)) (previous dimension : Z) (polls : nat) (s : ImageLib) :
  Forall (fun ip => (fst ip < total)%nat) items ->
  scan_progress total previous s
    (fst (scan_items w progress_reporter cancel_event scan_only save_pipeline
                     total items previous dimension polls s)).
Proof.
  revert previous dimension polls s.
  induction items as [|[i relative_path] items IH];
    intros previous dimension polls s Hitems.
  - apply scan_progress_frame, scan_frame_refl.
  - inversion Hitems as [|? ? Hi Hitems']; subst. simpl in Hi. simpl.
    unfold bind at 1, image_open.
    apply (scan_progress_frame_l previous s
             (set_log (log s ++ [ImageOpened relative_path]) s)); [by repeat split|].
    generalize (set_log (log s ++ [ImageOpened relative_path]) s). clear s. intros s.
    destruct (verify w relative_path); simpl; [|by apply IH].
    set (current := current_progress i total).
    assert (forall previous' s1,
      scan_progress total previous' s1
        (fst ((if cancelled cancel_event polls
               then raise (TaskCancellationException "Library initialization cancelled")
               else
                 dimension <- save_yielded w scan_only save_pipeline relative_path
                   (if save_pipeline && scan_only then None
                    else Some (embed_image_as_list w relative_path)) dimension ;;
                 scan_items w progress_reporter cancel_event scan_only save_pipeline
                   total items previous' dimension (S polls)) s1))) as Hrest.
    { intros previous' s1. destruct (cancelled cancel_event polls).
      - apply scan_progress_frame, scan_frame_refl.
      - unfold bind.
        pose proof (save_yielded_frame w scan_only save_pipeline relative_path
          (if save_pipeline && scan_only then None
           else Some (embed_image_as_list w relative_path)) dimension s1) as Hf.
        destruct (save_yielded _ _ _ _ _ _ s1) as [s2 [e|d]]; simpl in Hf.
        + by apply scan_progress_frame.
        + eapply scan_progress_frame_l; [exact Hf|]. by apply IH. }
    unfold bind at 1.
    destruct (bool_decide_reflect (current > previous)) as [Hgt|Hle].
    + unfold report_progress. destruct progress_reporter; simpl.
      * eapply scan_progress_report; [exact Hi|lia|]. apply Hrest.
      * eapply scan_progress_weaken; [|apply Hrest]. unfold current in *. lia.
    + simpl. apply Hrest.
Qed.
End reports.



Lemma enumerate_in_range (l : list string) :
  Forall (fun ip => (fst ip < length l)%nat) (enumerate l).
Proof.
  apply Forall_forall. intros [i p] Hin. unfold enumerate in Hin.
  apply elem_of_lookup_imap in Hin as (j & q & Heq & Hq).
  injection Heq as -> ->. simpl. by eapply lookup_lt_Some.
Qed.

Lemma scan_loop_progress w progress_reporter cancel_event scan_only save_pipeline s :
  exists total,
    scan_progress total (-1) s
      (fst (scan_loop w progress_reporter cancel_event scan_only save_pipeline s)).
Proof.
  unfold scan_loop, bind.
  pose proof (do_scan_walk_frame false s) as Hf.
  destruct (do_scan_walk false s) as [s1 [e|to_be_embedded]]; simpl in Hf.
  - exists 0%nat. by apply scan_progress_frame.
  - exists (length to_be_embedded). eapply scan_progress_frame_l; [exact Hf|].
    apply scan_items_progress, enumerate_in_range.
Qed.

Lemma flush_frame s : scan_frame s (flush s).
Proof. by repeat split. Qed.

Lemma scan_and_initialize_progress w progress_reporter cancel_event scan_only s :
  exists total,
    scan_progress total (-1) s
      (fst (scan_and_initialize w progress_reporter cancel_event scan_only s)).
Proof.
  unfold scan_and_initialize. unfold bind at 1. unfold gets at 1.
  set (loop := if negb (local_mode s) then _ else _).
  assert (exists total, scan_progress total (-1) s (fst (loop s))) as [total Hloop].
  { unfold loop. destruct (negb (local_mode s)).
    - destruct (scan_loop_progress w progress_reporter cancel_event scan_only true s)
        as [total H].
      exists total. unfold with_save_pipeline.
      destruct (scan_loop _ _ _ _ _ s) as [s1 r]. simpl in *.
      destruct H as (Hl & Hm & Hk & new & Hnew & Hs & Hall).
      repeat split; try done. by exists new.
    - apply scan_loop_progress. }
  exists total. unfold bind. destruct (loop s) as [s1 [e|dimension]]; simpl in *; [done|].
  match goal with |- scan_progress _ _ _ (fst (?post s1)) =>
    assert (preserves scan_frame post) as Hpost end.
  { intros s0. destruct scan_only, (negb (local_mode s)); by repeat split. }
  specialize (Hpost s1).
  destruct Hloop as (Hl & Hm & Hk & new & Hnew & Hs & Hall).
  destruct Hpost as (Hl' & Hm' & Hr' & Hk').
  repeat split; try congruence. exists new. split; [congruence|done].
Qed.

Lemma locked_scan_held w progress_reporter cancel_event s :
  scan_lock s = true ->
  locked_scan w progress_reporter cancel_event s
  = (s, inl (LockAcquisitionFailure "There is already a scan task running")).
Proof. intros H. unfold locked_scan, with_LockContext. by rewrite H. Qed.

Lemma locked_scan_free_eq w progress_reporter cancel_event s :
  scan_lock s = false ->
  locked_scan w progress_reporter cancel_event s =
    after_scan (scan_and_initialize w progress_reporter cancel_event false (stamped w s)).
Proof.
  intros Hfree. unfold after_scan, locked_scan, with_LockContext. rewrite Hfree.
  cbv beta iota delta [negb except_TaskCancellationException bind modify save_metadata
                       datetime_now].
  cbn [last_scanned log clock_reads set_last_scanned set_clock_reads set_scan_lock].
  change (set_log _ _) with (stamped w s).
  destruct (scan_and_initialize _ _ _ _ _) as [s2 [[]|]]; reflexivity.
Qed.

Lemma locked_scan_free w progress_reporter cancel_event s :
  scan_lock s = false ->
  let s' := fst (locked_scan w progress_reporter cancel_event s) in
  last_scanned s' = now w (clock_reads s) /\
  metadata_file s' = Some (now w (clock_reads s)) /\
  scan_lock s' = false /\
  exists total, reports_since total (-1) s s'.
Proof.
  intros Hfree. rewrite locked_scan_free_eq by done. unfold after_scan.
  set (s1 := stamped w s).
  destruct (scan_and_initialize_progress w progress_reporter cancel_event false s1)
    as (total & Hl & Hm & Hk & new & Hnew & Hs & Hall).
  assert (exists total, reports_since total (-1) s
                          (fst (scan_and_initialize w progress_reporter cancel_event false s1)))
    as Hrep.
  { exists total, new. by rewrite Hnew. }
  destruct (scan_and_initialize _ _ _ _ s1) as [s2 r]. simpl in *.
  destruct r as [[]|]; simpl; by repeat split.
Qed.



(** ** Relations every step of a scan keeps *)

Ltac preserves_step refl trans :=
  match goal with
  | |- preserves _ (ret _) => apply (preserves_ret _ refl)
  | |- preserves _ (raise _) => apply (preserves_raise _ refl)
  | |- preserves _ (gets _) => apply (preserves_gets _ refl)
  | |- preserves _ (bind _ _) => apply (preserves_bind _ trans); [|intros ?]
  | |- preserves _ (for_each _ _) => apply (preserves_for_each _ refl trans); intros ?
  | |- preserves _ (modify _) => apply preserves_modify; intros ?
  | |- preserves _ (if ?b then _ else _) => destruct b
  | |- preserves _ (match ?x with _ => _ end) => destruct x
  end.

Section scan_preserves.
Variable R : relation ImageLib.
Hypothesis R_refl : forall s, R s s.
Hypothesis R_trans : forall s1 s2 s3, R s1 s2 -> R s2 s3 -> R s1 s3.
Variable w : World.
Variables progress_reporter scan_only : bool.
Variable cancel_event : option (nat -> bool).
Hypothesis R_report : forall v, preserves R (report_progress progress_reporter v).
Hypothesis R_open : forall p, preserves R (image_open w p).

Section one_loop.
Variable save_pipeline : bool.
Hypothesis R_save : forall p y d,
  preserves R (save_yielded w scan_only save_pipeline p y d).

Lemma scan_items_preserves total items previous dimension polls :
  preserves R (scan_items w progress_reporter cancel_event scan_only save_pipeline
                          total items previous dimension polls).
Proof.
  revert previous dimension polls.
  induction items as [|[i relative_path] items IH]; intros previous dimension polls; simpl.
  - by apply preserves_ret.
  - apply preserves_bind; [done|apply R_open|intros valid].
    destruct valid; simpl; [|apply IH].
    apply preserves_bind; [done| |intros _].
    + destruct (bool_decide _); [apply R_report|by apply preserves_ret].
    + destruct (cancelled cancel_event polls); [by apply preserves_raise|].
      apply preserves_bind; [done|apply R_save|intros d; apply IH].
Qed.

Lemma scan_loop_preserves :
  preserves R (scan_loop w progress_reporter cancel_event scan_only save_pipeline).
Proof.
  unfold scan_loop, do_scan_walk.
  repeat preserves_step R_refl R_trans. apply scan_items_preserves.
Qed.
End one_loop.

Hypothesis R_save : forall save_pipeline p y d,
  preserves R (save_yielded w scan_only save_pipeline p y d).
Hypothesis R_flush : forall s, R s (flush s).
Hypothesis R_save_scan_profile : scan_only = false -> preserves R save_scan_profile.
Hypothesis R_initialize_index : scan_only = false -> forall d, preserves R (initialize_index d).

Lemma scan_and_initialize_preserves :
  preserves R (scan_and_initialize w progress_reporter cancel_event scan_only).
Proof.
  unfold scan_and_initialize, persist.
  apply preserves_bind; [done|by apply preserves_gets|intros lm].
  apply preserves_bind; [done| |intros d].
  - destruct (negb lm).
    + intros s. unfold with_save_pipeline.
      pose proof (scan_loop_preserves true (R_save true) s) as H.
      destruct (scan_loop _ _ _ _ _ s) as [s1 r]. simpl in *.
      eapply R_trans; [exact H|apply R_flush].
    + apply scan_loop_preserves, R_save.
  - destruct scan_only; cbn [negb]; [by apply preserves_ret|].
    repeat preserves_step R_refl R_trans; auto.
Qed.
End scan_preserves.

(** ** The clock during a scan *)

Lemma rows_stamped_since_refl w s : rows_stamped_since w s s.
Proof. split; [done|]. intros r Hr. by left. Qed.

Lemma rows_stamped_since_trans w s1 s2 s3 :
  rows_stamped_since w s1 s2 -> rows_stamped_since w s2 s3 -> rows_stamped_since w s1 s3.
Proof.
  intros [Hc12 H12] [Hc23 H23]. split; [lia|]. intros r Hr.
  destruct (H23 r Hr) as [Hin|(n & Hn & Ht)].
  - destruct (H12 r Hin) as [Hin'|(n & Hn & Ht)]; [by left|].
    right. exists n. split; [lia|done].
  - right. exists n. split; [lia|done].
Qed.

Lemma rows_stamped_since_same w s s' :
  clock_reads s' = clock_reads s -> rows s' = rows s -> rows_stamped_since w s s'.
Proof. intros Hc Hr. split; [lia|]. intros r. rewrite Hr. by left. Qed.

Lemma write_embedding_entry_stamped w relative_path e save_pipeline :
  preserves (rows_stamped_since w) (write_embedding_entry w relative_path e save_pipeline).
Proof.
  intros s.
  assert (forall s', clock_reads s' = S (clock_reads s) ->
            rows s' = rows s ++ [mkRow (S (list_max (map row_id (rows s))))
                                       (now w (clock_reads s)) (uuid4_drawn s)
                                       (dirname relative_path) (basename relative_path)] ->
            rows_stamped_since w s s') as Hadd.
  { intros s' Hc Hr. split; [lia|]. intros r. rewrite Hr, elem_of_app, list_elem_of_singleton.
    intros [Hin| ->]; [by left|]. right. exists (clock_reads s). split; [lia|done]. }
  unfold write_embedding_entry, datetime_now, uuid4, insert_row, vector_db_add,
    bind, gets, modify, raise.
  destruct save_pipeline; simpl.
  - destruct (bool_decide _); by apply Hadd.
  - destruct (index_dimension s) as [d|]; simpl; [|by apply Hadd].
    destruct (bool_decide _); by apply Hadd.
Qed.

Lemma save_yielded_stamped w scan_only save_pipeline relative_path yielded dimension :
  preserves (rows_stamped_since w)
    (save_yielded w scan_only save_pipeline relative_path yielded dimension).
Proof.
  unfold save_yielded, initialize_index.
  repeat first
    [ apply write_embedding_entry_stamped
    | preserves_step (rows_stamped_since_refl w) (rows_stamped_since_trans w) ];
    by apply rows_stamped_since_same.
Qed.

Lemma scan_and_initialize_stamped w progress_reporter cancel_event scan_only :
  preserves (rows_stamped_since w)
    (scan_and_initialize w progress_reporter cancel_event scan_only).
Proof.
  apply scan_and_initialize_preserves.
  - apply rows_stamped_since_refl.
  - apply rows_stamped_since_trans.
  - intros v. unfold report_progress. destruct progress_reporter.
    + apply preserves_modify. intros s. by apply rows_stamped_since_same.
    + apply preserves_ret, rows_stamped_since_refl.
  - intros p s. by apply rows_stamped_since_same.
  - intros. apply save_yielded_stamped.
  - intros s. by apply rows_stamped_since_same.
  - intros _. apply preserves_modify. intros s. by apply rows_stamped_since_same.
  - intros _ d. apply preserves_modify. intros s. by apply rows_stamped_since_same.
Qed.

Lemma locked_scan_free_rows w progress_reporter cancel_event s :
  scan_lock s = false ->
  let s' := fst (locked_scan w progress_reporter cancel_event s) in
  (clock_reads s < clock_reads s')%nat /\
  forall r, r ∈ rows s' ->
    r ∈ rows s \/
    exists n, (clock_reads s < n < clock_reads s')%nat /\ row_timestamp r = now w n.
Proof.
  intros Hfree. rewrite locked_scan_free_eq by done. unfold after_scan.
  destruct (scan_and_initialize_stamped w progress_reporter cancel_event false (stamped w s))
    as [Hc Hrows].
  destruct (scan_and_initialize _ _ _ _ (stamped w s)) as [s2 r]. simpl in Hc, Hrows.
  assert (forall r, r ∈ rows s2 ->
            r ∈ rows s \/
            exists n, (clock_reads s < n < clock_reads s2)%nat /\ row_timestamp r = now w n)
    as Hrows'.
  { intros r0 Hr. destruct (Hrows r0 Hr) as [Hin|(n & Hn & Ht)]; [by left|].
    right. exists n. split; [lia|done]. }
  destruct r as [[]|]; simpl; (split; [lia|]); try done.
  intros r0 Hr. by apply elem_of_nil in Hr.
Qed.

(** ** The log during a scan *)

Lemma opened_since_refl s : opened_since s s.
Proof. exists []. by rewrite app_nil_r. Qed.

Lemma opened_since_trans s1 s2 s3 :
  opened_since s1 s2 -> opened_since s2 s3 -> opened_since s1 s3.
Proof.
  intros [o12 H12] [o23 H23]. exists (o12 ++ o23).
  by rewrite H23, H12, map_app, app_assoc.
Qed.

Lemma opened_since_same s s' : log s' = log s -> opened_since s s'.
Proof. intros H. exists []. by rewrite app_nil_r. Qed.

Lemma write_embedding_entry_log w relative_path e save_pipeline :
  preserves opened_since (write_embedding_entry w relative_path e save_pipeline).
Proof.
  intros s. apply opened_since_same.
  unfold write_embedding_entry, datetime_now, uuid4, insert_row, vector_db_add,
    bind, gets, modify, raise.
  destruct save_pipeline; simpl.
  - by destruct (bool_decide _).
  - destruct (index_dimension s) as [d|]; simpl; [|done].
    by destruct (bool_decide _).
Qed.

Lemma save_yielded_log w scan_only save_pipeline relative_path yielded dimension :
  preserves opened_since
    (save_yielded w scan_only save_pipeline relative_path yielded dimension).
Proof.
  unfold save_yielded, initialize_index.
  repeat first
    [ apply write_embedding_entry_log
    | preserves_step opened_since_refl opened_since_trans ];
    by apply opened_since_same.
Qed.

Lemma scan_and_initialize_log w progress_reporter cancel_event scan_only :
  preserves opened_since (scan_and_initialize w progress_reporter cancel_event scan_only).
Proof.
  apply scan_and_initialize_preserves.
  - apply opened_since_refl.
  - apply opened_since_trans.
  - intros v. unfold report_progress. destruct progress_reporter.
    + apply preserves_modify. intros s. by apply opened_since_same.
    + apply preserves_ret, opened_since_refl.
  - intros p s. by exists [p].
  - intros. apply save_yielded_log.
  - intros s. by apply opened_since_same.
  - intros _. apply preserves_modify. intros s. by apply opened_since_same.
  - intros _ d. apply preserves_modify. intros s. by apply opened_since_same.
Qed.

Lemma locked_scan_free_log w progress_reporter cancel_event s :
  scan_lock s = false ->
  exists opened : list string,
    log (fst (locked_scan w progress_reporter cancel_event s))
    = log s ++ MetadataSaved (now w (clock_reads s)) :: map ImageOpened opened.
Proof.
  intros Hfree. rewrite locked_scan_free_eq by done. unfold after_scan.
  destruct (scan_and_initialize_log w progress_reporter cancel_event false (stamped w s))
    as [opened Hlog].
  exists opened.
  destruct (scan_and_initialize _ _ _ _ (stamped w s)) as [s2 r]. simpl in Hlog.
  rewrite <- app_assoc in Hlog.
  destruct r as [[]|]; exact Hlog.
Qed.

(** ** [initialize] up to its scan *)

Lemma initialize_eq w force_init progress_reporter cancel_event s :
  initialize w force_init progress_reporter cancel_event s =
    if lib_is_ready s && negb force_init then (s, inr tt)
    else if negb (lib_is_ready s) && negb (embedder s)
    then (s, inl (LibraryError "Embedder not set"))
    else if negb force_init && bool_decide (0 < length (rows s))%nat
            && negb (bool_decide (vectors s = []))
    then (loaded s, inr tt)
    else locked_scan w progress_reporter cancel_event (purged (loaded s)).
Proof.
  unfold initialize, loaded, purged, load_dbs, row_count, db_is_empty,
    vector_db_clean_all_data, table_clean_all_data, bind, gets, modify, ret, raise.
  destruct s as [lm ls tb vd em lk ef mf sp rw vs st ix fs ud rp cr lg].
  unfold lib_is_ready, metadata_exists. cbn.
  destruct mf as [m|], tb, vd, em, force_init; cbn;
    try reflexivity;
    destruct (bool_decide (0 < length rw)%nat), (bool_decide (vs = [])); cbn;
    reflexivity.
Qed.

Lemma purged_loaded_frame s :
  let s2 := purged (loaded s) in
  last_scanned s2 = last_scanned s /\ metadata_file s2 = metadata_file s /\
  reported s2 = reported s /\ scan_lock s2 = scan_lock s /\
  embedded_files s2 = embedded_files s /\ scan_profile s2 = scan_profile s /\
  uuid4_drawn s2 = uuid4_drawn s /\ files s2 = files s /\ staged s2 = staged s /\
  index_dimension s2 = index_dimension s /\ clock_reads s2 = clock_reads s /\
  log s2 = log s.
Proof.
  cbv zeta. unfold purged, loaded. destruct (lib_is_ready s) eqn:Hready.
  - rewrite Hready. by repeat split.
  - destruct (lib_is_ready (set_vector_db true (set_table true s))); by repeat split.
Qed.

Lemma loaded_frame s :
  let s1 := loaded s in
  last_scanned s1 = last_scanned s /\ metadata_file s1 = metadata_file s /\
  reported s1 = reported s /\ scan_lock s1 = scan_lock s /\
  embedded_files s1 = embedded_files s /\ scan_profile s1 = scan_profile s /\
  uuid4_drawn s1 = uuid4_drawn s /\ files s1 = files s /\ staged s1 = staged s /\
  index_dimension s1 = index_dimension s /\ rows s1 = rows s /\ vectors s1 = vectors s /\
  clock_reads s1 = clock_reads s /\ log s1 = log s.
Proof. cbv zeta. unfold loaded. destruct (lib_is_ready s); by repeat split. Qed.

Lemma purged_loaded_rows s r : r ∈ rows (purged (loaded s)) -> r ∈ rows s.
Proof.
  unfold purged. destruct (lib_is_ready (loaded s)); simpl.
  - by intros ?%elem_of_nil.
  - by destruct (loaded_frame s) as (_&_&_&_&_&_&_&_&_&_&->&_).
Qed.

(** ** The claims on [initialize]

    C8, as amended.  [last_scanned] is set to the current time and saved at
    the start of every scan, before any file is processed: a call of
    [initialize] that gets past its early returns and acquires the scan lock
    reads the clock, stores the reading in [last_scanned] and saves it, and
    only then enters [__scan_and_initialize]; the save comes before every
    image the scan opens, no save follows it, and every row the scan writes
    carries a later reading of the clock.  The value is not restored
    afterwards: when the call ends, whether its scan completed, was cancelled
    or failed, [last_scanned] and its saved copy are that first reading.  A
    call that does not get to the scan leaves both unchanged, saves nothing
    and does not read the clock. *)
Theorem last_scanned_set_at_scan_start w force_init progress_reporter cancel_event s :
  let s' := fst (initialize w force_init progress_reporter cancel_event s) in
  if starts_scan force_init s
  then initialize w force_init progress_reporter cancel_event s
       = after_scan (scan_and_initialize w progress_reporter cancel_event false
                       (stamped w (purged (loaded s)))) /\
       last_scanned s' = now w (clock_reads s) /\
       metadata_file s' = Some (now w (clock_reads s)) /\
       (exists opened : list string,
          log s' = log s ++ MetadataSaved (now w (clock_reads s)) :: map ImageOpened opened) /\
       (clock_reads s < clock_reads s')%nat /\
       forall r, r ∈ rows s' ->
         r ∈ rows s \/
         exists n, (clock_reads s < n < clock_reads s')%nat /\ row_timestamp r = now w n
  else last_scanned s' = last_scanned s /\ metadata_file s' = metadata_file s /\
       log s' = log s /\ clock_reads s' = clock_reads s.
Proof.
  rewrite initialize_eq. unfold starts_scan, reaches_lock.
  assert (forall s1,
    scan_lock s1 = scan_lock s -> clock_reads s1 = clock_reads s -> log s1 = log s ->
    last_scanned s1 = last_scanned s -> metadata_file s1 = metadata_file s ->
    (forall r, r ∈ rows s1 -> r ∈ rows s) ->
    let s' := fst (locked_scan w progress_reporter cancel_event s1) in
    if negb (scan_lock s)
    then locked_scan w progress_reporter cancel_event s1
         = after_scan (scan_and_initialize w progress_reporter cancel_event false
                         (stamped w s1)) /\
         last_scanned s' = now w (clock_reads s) /\
         metadata_file s' = Some (now w (clock_reads s)) /\
         (exists opened : list string,
            log s' = log s ++ MetadataSaved (now w (clock_reads s)) :: map ImageOpened opened) /\
         (clock_reads s < clock_reads s')%nat /\
         forall r, r ∈ rows s' ->
           r ∈ rows s \/
           exists n, (clock_reads s < n < clock_reads s')%nat /\ row_timestamp r = now w n
    else last_scanned s' = last_scanned s /\ metadata_file s' = metadata_file s /\
         log s' = log s /\ clock_reads s' = clock_reads s) as Hscan.
  { intros s1 Hk Hc Hg Hl Hm Hrows. cbv zeta.
    destruct (scan_lock s) eqn:Hlock; simpl.
    - rewrite locked_scan_held by congruence. done.
    - split; [apply locked_scan_free_eq; congruence|].
      destruct (locked_scan_free w progress_reporter cancel_event s1)
        as (Hl' & Hm' & _); [congruence|].
      destruct (locked_scan_free_rows w progress_reporter cancel_event s1)
        as (Hc' & Hrows'); [congruence|].
      destruct (locked_scan_free_log w progress_reporter cancel_event s1)
        as (opened & Hlog); [congruence|].
      rewrite Hc, ?Hg in *. split; [done|]. split; [done|].
      split; [by exists opened|]. split; [done|].
      intros r Hr. destruct (Hrows' r Hr) as [Hin|Hn]; [left; by apply Hrows|by right]. }
  destruct (lib_is_ready s && negb force_init); [done|].
  destruct (purged_loaded_frame s)
    as (Hl & Hm & _ & Hk & _ & _ & _ & _ & _ & _ & Hc & Hg).
  destruct (loaded_frame s) as (Hl1&Hm1&_&_&_&_&_&_&_&_&_&_&Hc1&Hg1).
  destruct (lib_is_ready s) eqn:Hready; simpl.
  - destruct (negb force_init && _ && _); simpl; [done|].
    apply Hscan; try done. apply purged_loaded_rows.
  - destruct (embedder s); simpl; [|done].
    destruct (negb force_init && _ && _); simpl; [done|].
    apply Hscan; try done. apply purged_loaded_rows.
Qed.

(** C9.  The values [initialize] passes to the progress reporter during
    its scan, each of them [int(i / total * 100)] in Python's float
    arithmetic for an item of the scan, are integers between 0 and 100, each
    strictly greater than the one reported before it: the sequence is
    non-decreasing and no value is reported twice in a row. *)
Theorem progress_reports w force_init progress_reporter cancel_event s :
  exists new : list Z,
    reported (fst (initialize w force_init progress_reporter cancel_event s))
      = reported s ++ new /\
    Forall (fun v => 0 <= v <= 100) new /\
    StronglySorted Z.lt new.
Proof.
  assert (forall s', reported s' = reported s ->
            exists new : list Z, reported s' = reported s ++ new /\
              Forall (fun v => 0 <= v <= 100) new /\ StronglySorted Z.lt new) as Hnone.
  { intros s' ->. exists []. rewrite app_nil_r. repeat split; constructor. }
  rewrite initialize_eq.
  destruct (lib_is_ready s && negb force_init); [by apply Hnone|].
  destruct (negb (lib_is_ready s) && negb (embedder s)); [by apply Hnone|].
  destruct (negb force_init && _ && _).
  { apply Hnone. by destruct (loaded_frame s) as (_&_&?&_). }
  destruct (purged_loaded_frame s) as (_ & _ & Hr & Hk & _).
  destruct (scan_lock s) eqn:Hlock.
  - rewrite locked_scan_held by congruence. by apply Hnone.
  - destruct (locked_scan_free w progress_reporter cancel_event (purged (loaded s)))
      as (_ & _ & _ & total & new & Hnew & Hs & Hall); [congruence|].
    exists new. split; [congruence|]. split; [|done].
    eapply Forall_impl; [exact Hall|]. intros v (_ & i & Hi & ->).
    by apply current_progress_in_range.
Qed.

(** C5, as amended.  [demolish] and the scan of [initialize] are guarded
    by the one non-blocking scan lock of the library: while it is held,
    [demolish] fails at once with [LockAcquisitionFailure] and changes
    nothing, and a call of [initialize] that is not answered by its early
    returns (library already initialised, embedder not set) fails at once
    with [LockAcquisitionFailure]; in no case does [initialize] wait or
    retry, scan, embed, report progress, touch [last_scanned] or the scan
    profile, or add a row or a vector. *)
Theorem scan_lock_contention w force_init progress_reporter cancel_event s :
  scan_lock s = true ->
  demolish s =
    (s, inl (LockAcquisitionFailure
               "There is already a scan task running, cancel the task and try again")) /\
  (reaches_lock force_init s = true ->
   snd (initialize w force_init progress_reporter cancel_event s)
   = inl (LockAcquisitionFailure "There is already a scan task running")) /\
  no_scan_work s (fst (initialize w force_init progress_reporter cancel_event s)).
Proof.
  intros Hlock. split; [|split].
  - unfold demolish, with_LockContext. by rewrite Hlock.
  - rewrite initialize_eq. unfold reaches_lock.
    destruct (lib_is_ready s && negb force_init); [done|].
    destruct (lib_is_ready s), (embedder s); simpl; try done;
      destruct (negb force_init && _ && _); simpl; try done; intros _;
      rewrite locked_scan_held; try done;
      by destruct (purged_loaded_frame s) as (_ & _ & _ & -> & _).
  - rewrite initialize_eq.
    assert (no_scan_work s s) as Hrefl by (by repeat split).
    assert (no_scan_work s (loaded s)) as Hloaded.
    { destruct (loaded_frame s) as (?&?&?&?&?&?&?&?&?&?&Hr&Hv&?&?).
      repeat split; try done; by rewrite ?Hr, ?Hv. }
    assert (no_scan_work s (purged (loaded s))) as Hpurged.
    { destruct (purged_loaded_frame s) as (?&?&?&?&?&?&?&?&?&?&?&?).
      repeat split; try done.
      - intros r. unfold purged. destruct (lib_is_ready _); simpl.
        + by intros ?%elem_of_nil.
        + by destruct (loaded_frame s) as (_&_&_&_&_&_&_&_&_&_&->&_).
      - intros v. unfold purged. destruct (lib_is_ready _); simpl.
        + by intros ?%elem_of_nil.
        + by destruct (loaded_frame s) as (_&_&_&_&_&_&_&_&_&_&_&->&_). }
    destruct (lib_is_ready s && negb force_init); [done|].
    destruct (negb (lib_is_ready s) && negb (embedder s)); [done|].
    destruct (negb force_init && _ && _); [done|].
    rewrite locked_scan_held; [done|].
    by destruct (purged_loaded_frame s) as (_ & _ & _ & -> & _).
Qed.

Lemma remove_embeddings_frame_witness :
  lib_is_ready scanned_library = true /\
  exists s',
    remove_embeddings ["/d/b.png"; ""; "zzz"] scanned_library = (s', inr tt) /\
    (forall p, embedded_files s' !! p =
               if bool_decide (p ∈ targets ["/d/b.png"; ""; "zzz"]) then None
               else embedded_files scanned_library !! p) /\
    rows s' = filter (fun r => row_uuid r ∉
                        removed_uuids (embedded_files scanned_library)
                                      ["/d/b.png"; ""; "zzz"])
                     (rows scanned_library) /\
    vectors s' = filter (fun kv => fst kv ∉
                           removed_uuids (embedded_files scanned_library)
                                         ["/d/b.png"; ""; "zzz"])
                        (vectors scanned_library) /\
    scan_profile s' = (if bool_decide (["/d/b.png"; ""; "zzz"] = []) then
                         scan_profile scanned_library
                       else embedded_files s') /\
    untouched_by_removal scanned_library s'.
Proof.
  split; [vm_compute; reflexivity|].
  apply (remove_embeddings_frame scanned_library ["/d/b.png"; ""; "zzz"]).
  vm_compute; reflexivity.
Defined.

Lemma scan_lock_contention_witness :
  scan_lock busy_library = true /\
  demolish busy_library =
    (busy_library,
     inl (LockAcquisitionFailure
            "There is already a scan task running, cancel the task and try again")) /\
  (reaches_lock true busy_library = true ->
   snd (initialize demo_world true false None busy_library)
   = inl (LockAcquisitionFailure "There is already a scan task running")) /\
  no_scan_work busy_library (fst (initialize demo_world true false None busy_library)).
Proof.
  split; [vm_compute; reflexivity|].
  apply (scan_lock_contention demo_world true false None busy_library).
  vm_compute; reflexivity.
Defined.

(** C5 as stated fails: on a library that is already initialised,
    [initialize] without [force_init] returns normally while the scan lock
    is held; it does not raise [LockAcquisitionFailure]. *)
Lemma initialize_returns_under_contention :
  scan_lock busy_library = true /\
  initialize demo_world false false None busy_library = (busy_library, inr tt) /\
  (forall msg, snd (initialize demo_world false false None busy_library)
               <> inl (LockAcquisitionFailure msg)).
Proof.
  split; [vm_compute; reflexivity|].
  assert (initialize demo_world false false None busy_library = (busy_library, inr tt))
    as Heq by (vm_compute; reflexivity).
  split; [exact Heq|]. intros msg. rewrite Heq. discriminate.
Qed.

(** C8 as stated fails.  The scan of a new library is cancelled after its
    first item, [initialize] returns normally, and the saved [last_scanned]
    is the time this call read when its scan started (7), not the value
    before the scan (0).  Nor is [last_scanned] updated at the end of a scan
    that completes: the scan of the same library that runs to its end leaves
    the time it started at (7), saved before the first image was opened,
    which is before the times its two rows were written at (17 and 27). *)
Lemma cancelled_scan_changes_last_scanned :
  let s := fresh_library in
  let s1 := stamped demo_world (purged (loaded s)) in
  let s' := fst (initialize demo_world false false cancel_after_first s) in
  let s'' := fst (initialize demo_world false false None s) in
  snd (scan_and_initialize demo_world false cancel_after_first false s1)
  = inl (TaskCancellationException "Library initialization cancelled") /\
  snd (initialize demo_world false false cancel_after_first s) = inr tt /\
  metadata_file s = Some 0%nat /\ last_scanned s = 0%nat /\
  metadata_file s' = Some 7%nat /\ last_scanned s' = 7%nat /\
  metadata_file s' <> metadata_file s /\
  snd (initialize demo_world false false None s) = inr tt /\
  metadata_file s'' = Some 7%nat /\ last_scanned s'' = 7%nat /\
  map row_timestamp (rows s'') = [17; 27]%nat /\
  log s'' = [MetadataSaved 7; ImageOpened "a.png"; ImageOpened "d/b.png"].
Proof.
  cbv zeta.
  repeat (split; [vm_compute; first [reflexivity | discriminate]|]).
  vm_compute. reflexivity.
Qed.

(** The first scan of the new library reports 0 for its first image and 50
    for its second. *)
Lemma first_scan_reports :
  reported (fst (initialize demo_world false true None fresh_library)) = [0; 50].
Proof. vm_compute. reflexivity. Qed.

(** ** The paired write and the incremental run *)

(** X13.  On the in-process store, once the index is initialized for the
    dimension of the embedding, [__write_embedding_entry] returns and adds
    one row, one vector and one scan profile entry, all three under the uuid
    it has just drawn; the row carries the time the call read. *)
Lemma write_embedding_entry_paired w relative_path e s :
  index_dimension s = Some (Z.of_nat (length e)) ->
  exists s',
    write_embedding_entry w relative_path e false s = (s', inr tt) /\
    rows s' = rows s ++ [mkRow (S (list_max (map row_id (rows s)))) (now w (clock_reads s))
                               (uuid4_drawn s)
                               (dirname relative_path) (basename relative_path)] /\
    vectors s' = vectors s ++ [(uuid4_drawn s, e)] /\
    embedded_files s' = <[relative_path := uuid4_drawn s]> (embedded_files s) /\
    uuid4_drawn s' = S (uuid4_drawn s) /\
    clock_reads s' = S (clock_reads s).
Proof.
  intros Hdim. unfold write_embedding_entry, vector_db_add, insert_row, uuid4, datetime_now,
    bind, gets, modify. simpl. rewrite Hdim.
  rewrite bool_decide_eq_true_2 by done. by eexists.
Qed.

Lemma write_embedding_entry_paired_witness :
  index_dimension scanned_library = Some (Z.of_nat (length [1; 2]%Q)) /\
  exists s',
    write_embedding_entry demo_world "c.png" [1; 2]%Q false scanned_library = (s', inr tt) /\
    rows s' = rows scanned_library ++
              [mkRow (S (list_max (map row_id (rows scanned_library))))
                     (now demo_world (clock_reads scanned_library))
                     (uuid4_drawn scanned_library)
                     (dirname "c.png") (basename "c.png")] /\
    vectors s' = vectors scanned_library ++ [(uuid4_drawn scanned_library, [1; 2]%Q)] /\
    embedded_files s' = <["c.png" := uuid4_drawn scanned_library]>
                          (embedded_files scanned_library) /\
    uuid4_drawn s' = S (uuid4_drawn scanned_library) /\
    clock_reads s' = S (clock_reads scanned_library).
Proof.
  split; [vm_compute; reflexivity|].
  apply (write_embedding_entry_paired demo_world "c.png" [1; 2]%Q scanned_library).
  vm_compute; reflexivity.
Defined.

(** X14.  With a scan profile that is not empty,
    [incremental_initialization] loads the two stores if they are not
    loaded, and does no more than that: it does no work of a scan, and the
    rows, the vectors and the folder are as they were. *)
Lemma incremental_initialization_no_scan w progress_reporter cancel_event s :
  embedded_files s <> ∅ ->
  let s' := fst (incremental_initialization w progress_reporter cancel_event s) in
  no_scan_work s s' /\ rows s' = rows s /\ vectors s' = vectors s /\ files s' = files s.
Proof.
  intros Hne. cbv zeta. unfold incremental_initialization, bind, gets.
  rewrite bool_decide_eq_false_2 by done.
  destruct (lib_is_ready s); simpl; [by repeat split|].
  unfold load_dbs, bind, gets, modify, raise.
  destruct (embedder s); simpl; by repeat split.
Qed.

Lemma incremental_initialization_no_scan_witness :
  embedded_files changed_library <> ∅ /\
  let s' := fst (incremental_initialization demo_world false None changed_library) in
  no_scan_work changed_library s' /\ rows s' = rows changed_library /\
  vectors s' = vectors changed_library /\ files s' = files changed_library.
Proof.
  assert (embedded_files changed_library <> ∅) as Hne.
  { intros H. apply (f_equal (fun m => m !! "a.png")) in H. vm_compute in H. discriminate H. }
  split; [exact Hne|].
  exact (incremental_initialization_no_scan demo_world false None changed_library Hne).
Defined.

(** ** Where the code departs from the specification *)

(** C1.  Dual-store consistency is to hold in every reachable state, also
    after a cancelled scan.  On the code it does not: a new library is
    scanned, the cancel event is set after the first image has been saved,
    and [initialize] cleans the table and the vector store but leaves the
    entry of that image in the scan profile, so its uuid has no row and no
    vector. *)
Lemma cancelled_scan_breaks_consistency :
  consistent fresh_library /\
  let (s', r) := initialize demo_world false false cancel_after_first fresh_library in
  r = inr tt /\
  embedded_files s' !! "a.png" = Some 0%nat /\
  rows s' = [] /\ vectors s' = [] /\
  ~ consistent s'.
Proof.
  split.
  - intros p u H. unfold fresh_library in H. simpl in H. by rewrite lookup_empty in H.
  - vm_compute initialize. repeat split; try reflexivity.
    intros H. destruct (H "a.png" 0%nat) as [Hrow _]; [reflexivity|]. discriminate Hrow.
Qed.

(** C2.  A cancelled [initialize] is to leave both stores and the scan
    profile as they were before the scan.  On the code, with the first of
    five images staged in the open batch when the cancel event is seen,
    [initialize] returns normally and both stores are back to their pre-scan
    contents, but the scan profile in memory keeps the entry this scan
    wrote. *)
Lemma cancelled_scan_keeps_profile_entry :
  let (s', r) := initialize demo_world false false cancel_after_first redis_library in
  r = inr tt /\
  rows s' = rows redis_library /\ vectors s' = vectors redis_library /\
  staged s' = [] /\ scan_profile s' = scan_profile redis_library /\
  embedded_files redis_library = ∅ /\
  embedded_files s' = {[ "1.png" := 0%nat ]} /\
  embedded_files s' <> embedded_files redis_library.
Proof.
  vm_compute initialize. repeat split; try reflexivity.
  intros H. apply (f_equal (fun m => m !! "1.png")) in H. discriminate H.
Qed.

(** C3.  [incremental_initialization] is to remove the entries of a file
    that is gone and to embed a file that is new.  On the code, with
    [d/b.png] in the scan profile but no longer in the folder and [f.png] in
    the folder but not in the profile, the call returns with the library
    unchanged: the entries of [d/b.png] remain and [f.png] is not
    embedded. *)
Lemma incremental_initialization_skips_scan :
  ("d/b.png" ∉ files changed_library) /\
  embedded_files changed_library !! "d/b.png" = Some 1%nat /\
  ("f.png" ∈ files changed_library) /\
  embedded_files changed_library !! "f.png" = None /\
  incremental_initialization demo_world false None changed_library
  = (changed_library, inr tt).
Proof.
  repeat split; try (vm_compute; reflexivity).
  - vm_compute. intros H. repeat (apply elem_of_cons in H as [H|H]; [discriminate H|]).
    by apply elem_of_nil in H.
  - vm_compute. right. left.
Qed.

(** ** Facts about the libraries to evaluate on *)

Lemma fresh_library_fresh_uuids : fresh_uuids fresh_library.
Proof. intros u _. repeat split. intros p. cbn. by rewrite lookup_empty. Qed.

Lemma never_set_None : never_set None.
Proof. by intros polls. Qed.

Lemma scanned_library_eq :
  embedded_files scanned_library = <["a.png" := 0%nat]> (<["d/b.png" := 1%nat]> ∅) /\
  rows scanned_library = [mkRow 1 17 0%nat "" "a.png"; mkRow 2 27 1%nat "d" "b.png"] /\
  vectors scanned_library = [(0%nat, [1; 2]%Q); (1%nat, [1; 2]%Q)] /\
  embedded_files changed_library = embedded_files scanned_library.
Proof. split; [|split; [|split]]; vm_compute; reflexivity. Qed.

Lemma scanned_library_consistent : consistent scanned_library.
Proof.
  destruct scanned_library_eq as (Hef & Hrows & Hvec & _).
  unfold consistent. rewrite Hef, Hrows, Hvec. intros p u.
  intros [[<- <-]|[_ [[<- <-]|[_ H]]%lookup_insert_Some]]%lookup_insert_Some.
  - split; reflexivity.
  - split; reflexivity.
  - by rewrite lookup_empty in H.
Qed.

Lemma scanned_library_injective : profile_injective scanned_library.
Proof.
  destruct scanned_library_eq as (Hef & _).
  unfold profile_injective. rewrite Hef. intros p q u.
  intros [[<- <-]|[_ [[<- <-]|[_ H]]%lookup_insert_Some]]%lookup_insert_Some;
    [| |by rewrite lookup_empty in H];
    intros [[<- ?]|[_ [[<- ?]|[_ H]]%lookup_insert_Some]]%lookup_insert_Some;
    try done; by rewrite lookup_empty in H.
Qed.

Lemma changed_library_relative_keys : relative_keys changed_library.
Proof.
  destruct scanned_library_eq as (Hef & _ & _ & Hch).
  unfold relative_keys. rewrite Hch, Hef. intros p u.
  intros [[<- <-]|[_ [[<- <-]|[_ H]]%lookup_insert_Some]]%lookup_insert_Some.
  - split; [discriminate|reflexivity].
  - split; [discriminate|reflexivity].
  - by rewrite lookup_empty in H.
Qed.

(** ** The dual-store invariant of a scan *)

Lemma length_filter_snoc {A : Type} (P : A -> Prop) `{forall x, Decision (P x)}
    (l : list A) (x : A) :
  length (filter P (l ++ [x]))
  = (length (filter P l) + (if decide (P x) then 1 else 0))%nat.
Proof.
  rewrite filter_app, length_app. f_equal.
  rewrite filter_cons, filter_nil. by destruct (decide (P x)).
Qed.

Lemma invariant_row_added (s s' : ImageLib) :
  scan_invariant s ->
  uuid4_drawn s' = S (uuid4_drawn s) ->
  (forall u, rows_with u s' =
             (rows_with u s + if decide (uuid4_drawn s = u) then 1 else 0)%nat) ->
  (forall u, vectors_with u s' = vectors_with u s) ->
  embedded_files s' = embedded_files s ->
  scan_invariant s'.
Proof.
  intros (Hfresh & Hinj & Hpair) Hd Hrows Hvec Hef. split; [|split].
  - intros u Hu. rewrite Hd in Hu. destruct (Hfresh u) as (Hr & Hv & Hp); [lia|].
    rewrite Hrows, Hvec, Hef, Hr. rewrite decide_False by lia. done.
  - intros p q u. rewrite Hef. apply Hinj.
  - intros p u. rewrite Hef. intros Hp. rewrite Hrows, Hvec.
    destruct (decide (uuid4_drawn s = u)) as [<-|Hne].
    + destruct (Hfresh (uuid4_drawn s)) as (_ & _ & Hno); [lia|]. by destruct (Hno p).
    + rewrite Nat.add_0_r. by apply (Hpair p).
Qed.

Lemma invariant_entry_added (s s' : ImageLib) (relative_path : string) :
  scan_invariant s ->
  uuid4_drawn s' = S (uuid4_drawn s) ->
  (forall u, rows_with u s' =
             (rows_with u s + if decide (uuid4_drawn s = u) then 1 else 0)%nat) ->
  (forall u, vectors_with u s' =
             (vectors_with u s + if decide (uuid4_drawn s = u) then 1 else 0)%nat) ->
  embedded_files s' = <[relative_path := uuid4_drawn s]> (embedded_files s) ->
  scan_invariant s'.
Proof.
  intros (Hfresh & Hinj & Hpair) Hd Hrows Hvec Hef.
  assert (forall p, embedded_files s !! p <> Some (uuid4_drawn s)) as Hnew.
  { by destruct (Hfresh (uuid4_drawn s)) as (_ & _ & ?); [lia|]. }
  split; [|split].
  - intros u Hu. rewrite Hd in Hu. destruct (Hfresh u) as (Hr & Hv & Hp); [lia|].
    rewrite Hrows, Hvec, Hef, Hr, Hv. rewrite decide_False by lia.
    split; [done|]. split; [done|]. intros p.
    destruct (decide (relative_path = p)) as [<-|Hne].
    + rewrite lookup_insert_eq. intros [= Heq]. lia.
    + rewrite lookup_insert_ne by done. apply Hp.
  - intros p q u. rewrite Hef.
    destruct (decide (relative_path = p)) as [<-|Hp], (decide (relative_path = q)) as [<-|Hq];
      rewrite ?lookup_insert_eq, ?lookup_insert_ne by done; try done.
    + intros [= <-] Hq'. by destruct (Hnew q).
    + intros Hp' [= <-]. by destruct (Hnew p).
    + apply Hinj.
  - intros p u. rewrite Hef, Hrows, Hvec.
    destruct (decide (relative_path = p)) as [<-|Hp].
    + rewrite lookup_insert_eq. intros [= <-]. rewrite decide_True by done.
      destruct (Hfresh (uuid4_drawn s)) as (-> & -> & _); [lia|]. done.
    + rewrite lookup_insert_ne by done. intros Hl.
      rewrite decide_False by (intros <-; by destruct (Hnew p)).
      rewrite !Nat.add_0_r. by apply (Hpair p).
Qed.

Lemma keeps_invariant_refl s : keeps_invariant s s.
Proof. by intros H. Qed.

Lemma keeps_invariant_trans s1 s2 s3 :
  keeps_invariant s1 s2 -> keeps_invariant s2 s3 -> keeps_invariant s1 s3.
Proof. unfold keeps_invariant. tauto. Qed.

Lemma write_embedding_entry_invariant w relative_path e save_pipeline :
  preserves keeps_invariant (write_embedding_entry w relative_path e save_pipeline).
Proof.
  intros s Hinv.
  unfold write_embedding_entry, uuid4, insert_row, vector_db_add, bind, gets, modify.
  cbn [fst snd]. destruct save_pipeline.
  - cbn. apply (invariant_entry_added s _ relative_path Hinv); cbn; try done.
    + destruct (bool_decide _); done.
    + intros u. unfold rows_with. destruct (bool_decide _); cbn;
        by rewrite length_filter_snoc.
    + intros u. unfold vectors_with, flush. destruct (bool_decide _); cbn;
        rewrite ?app_nil_r, app_assoc; by rewrite length_filter_snoc.
    + by destruct (bool_decide _).
  - cbn. destruct (index_dimension s) as [d|]; cbn.
    + destruct (bool_decide (d = Z.of_nat (length e))); cbn.
      * apply (invariant_entry_added s _ relative_path Hinv); cbn; try done.
        -- intros u. unfold rows_with. cbn. by rewrite length_filter_snoc.
        -- intros u. unfold vectors_with. cbn.
           rewrite !filter_app, !length_app, filter_cons, filter_nil.
           destruct (decide _); cbn; lia.
      * apply (invariant_row_added s _ Hinv); cbn; try done.
        intros u. unfold rows_with. cbn. by rewrite length_filter_snoc.
    + apply (invariant_row_added s _ Hinv); cbn; try done.
      intros u. unfold rows_with. cbn. by rewrite length_filter_snoc.
Qed.

Lemma save_yielded_invariant w scan_only save_pipeline p y d :
  preserves keeps_invariant (save_yielded w scan_only save_pipeline p y d).
Proof.
  unfold save_yielded, initialize_index.
  repeat preserves_step keeps_invariant_refl keeps_invariant_trans;
    try apply write_embedding_entry_invariant; by intros H.
Qed.

Lemma flush_invariant s : keeps_invariant s (flush s).
Proof.
  assert (forall u, vectors_with u (flush s) = vectors_with u s) as Hvec.
  { intros u. unfold vectors_with, flush. cbn. by rewrite app_nil_r. }
  intros (Hfresh & Hinj & Hpair). split; [|split].
  - intros u Hu. rewrite Hvec. by apply Hfresh.
  - exact Hinj.
  - intros p u Hp. rewrite Hvec. by apply (Hpair p).
Qed.

Lemma scan_and_initialize_invariant w progress_reporter cancel_event scan_only :
  preserves keeps_invariant
    (scan_and_initialize w progress_reporter cancel_event scan_only).
Proof.
  apply scan_and_initialize_preserves.
  - exact keeps_invariant_refl.
  - exact keeps_invariant_trans.
  - intros v. unfold report_progress.
    repeat preserves_step keeps_invariant_refl keeps_invariant_trans. by intros H.
  - by intros p s H.
  - intros. apply save_yielded_invariant.
  - exact flush_invariant.
  - intros _. unfold save_scan_profile. apply preserves_modify. by intros s H.
  - intros _ d. unfold initialize_index. apply preserves_modify. by intros s H.
Qed.

(** The staged writes of a scan are flushed when it ends; without a batch
    writer nothing is staged. *)
Lemma scan_and_initialize_staged w progress_reporter cancel_event scan_only s :
  staged s = [] ->
  staged (fst (scan_and_initialize w progress_reporter cancel_event scan_only s)) = [].
Proof.
  intros Hst.
  set (keeps_staged := fun s s' : ImageLib => staged s' = staged s).
  assert (forall s, keeps_staged s s) as Hrefl by done.
  assert (forall s1 s2 s3, keeps_staged s1 s2 -> keeps_staged s2 s3 -> keeps_staged s1 s3)
    as Htrans by (unfold keeps_staged; congruence).
  assert (preserves keeps_staged
            (scan_loop w progress_reporter cancel_event scan_only false)) as Hloop.
  { apply scan_loop_preserves; [done|done| |done|].
    - intros v. unfold report_progress. repeat preserves_step Hrefl Htrans. done.
    - intros p y d. unfold save_yielded, initialize_index, write_embedding_entry,
        insert_row, vector_db_add.
      repeat preserves_step Hrefl Htrans; done. }
  unfold scan_and_initialize, bind at 1, gets at 1. unfold bind.
  destruct (local_mode s) eqn:Hlm; cbn [negb].
  - specialize (Hloop s). destruct (scan_loop _ _ _ _ _ s) as [s1 [e|d]]; cbn in *.
    + congruence.
    + destruct scan_only; cbn; congruence.
  - unfold with_save_pipeline.
    destruct (scan_loop _ _ _ _ _ s) as [s1 [e|d]]; cbn; [done|].
    by destruct scan_only.
Qed.

(** ** What a method can raise *)

Section raises_only.
Variable P : exn -> Prop.

Lemma raises_only_ret {A : Type} (a : A) : raises_only P (ret a).
Proof. by intros s e. Qed.

Lemma raises_only_gets {A : Type} (f : ImageLib -> A) : raises_only P (gets f).
Proof. by intros s e. Qed.

Lemma raises_only_modify (f : ImageLib -> ImageLib) : raises_only P (modify f).
Proof. by intros s e. Qed.

Lemma raises_only_raise {A : Type} (e : exn) : P e -> raises_only P (@raise A e).
Proof. intros He s e' [= <-]. exact He. Qed.

Lemma raises_only_bind {A B : Type} (m : M A) (k : A -> M B) :
  raises_only P m -> (forall a, raises_only P (k a)) -> raises_only P (bind m k).
Proof.
  intros Hm Hk s e. unfold bind. specialize (Hm s).
  destruct (m s) as [s1 [e1|a]]; cbn in *.
  - intros [= <-]. by apply Hm.
  - apply Hk.
Qed.
End raises_only.

Ltac raises_step :=
  match goal with
  | |- raises_only _ (ret _) => apply raises_only_ret
  | |- raises_only _ (gets _) => apply raises_only_gets
  | |- raises_only _ (modify _) => apply raises_only_modify
  | |- raises_only _ (raise _) => apply raises_only_raise
  | |- raises_only _ (bind _ _) => apply raises_only_bind; [|intros ?]
  | |- raises_only _ (if ?b then _ else _) => destruct b
  | |- raises_only _ (match ?x with _ => _ end) => destruct x
  end.

Lemma save_yielded_raises w scan_only save_pipeline p y d :
  raises_only not_cancellation (save_yielded w scan_only save_pipeline p y d).
Proof.
  unfold save_yielded, initialize_index, write_embedding_entry, insert_row, vector_db_add.
  repeat raises_step; try (by intros msg).
  all: apply raises_only_bind; [by intros s e|intros u]; repeat raises_step; by intros msg.
Qed.

Section scan_raises.
Variable P : exn -> Prop.
Variable w : World.
Variables progress_reporter scan_only : bool.
Variable cancel_event : option (nat -> bool).
Hypothesis P_cancel :
  never_set cancel_event \/ P (TaskCancellationException "Library initialization cancelled").
Hypothesis P_save : forall save_pipeline p y d,
  raises_only P (save_yielded w scan_only save_pipeline p y d).

Lemma scan_items_raises save_pipeline total items previous dimension polls :
  raises_only P
    (scan_items w progress_reporter cancel_event scan_only save_pipeline
                total items previous dimension polls).
Proof.
  revert previous dimension polls.
  induction items as [|[i relative_path] items IH]; intros previous dimension polls; simpl.
  - apply raises_only_ret.
  - apply raises_only_bind; [by intros s e|intros valid].
    destruct valid; simpl; [|apply IH].
    apply raises_only_bind; [|intros _].
    + unfold report_progress. repeat raises_step.
    + destruct (cancelled cancel_event polls) eqn:Hc.
      * apply raises_only_raise. destruct P_cancel as [Hnever|HP]; [|done].
        by rewrite Hnever in Hc.
      * apply raises_only_bind; [apply P_save|intros d; apply IH].
Qed.

Lemma scan_and_initialize_raises_only :
  raises_only P (scan_and_initialize w progress_reporter cancel_event scan_only).
Proof.
  assert (forall save_pipeline,
            raises_only P
              (scan_loop w progress_reporter cancel_event scan_only save_pipeline)) as Hloop.
  { intros sp. unfold scan_loop, do_scan_walk. repeat raises_step.
    apply scan_items_raises. }
  unfold scan_and_initialize, persist, save_scan_profile, initialize_index.
  apply raises_only_bind; [apply raises_only_gets|intros lm].
  apply raises_only_bind; [|intros d; repeat raises_step].
  destruct (negb lm); [|apply Hloop].
  intros s e. unfold with_save_pipeline. specialize (Hloop true s).
  destruct (scan_loop _ _ _ _ _ s) as [s1 r]. cbn in *. apply Hloop.
Qed.
End scan_raises.

Lemma scan_and_initialize_raises w progress_reporter cancel_event scan_only :
  never_set cancel_event ->
  raises_only not_cancellation
    (scan_and_initialize w progress_reporter cancel_event scan_only).
Proof.
  intros Hnever. apply scan_and_initialize_raises_only; [by left|].
  intros. apply save_yielded_raises.
Qed.

(** ** The first scan of a library *)

Lemma paired_consistent s : paired s -> staged s = [] -> consistent s.
Proof.
  intros Hpair Hst p u Hp. destruct (Hpair p u Hp) as [Hr Hv].
  unfold rows_with, vectors_with in *. rewrite Hst, app_nil_r in Hv. done.
Qed.

Lemma empty_profile_invariant s :
  embedded_files s = ∅ ->
  (forall u, (uuid4_drawn s <= u)%nat -> rows_with u s = 0%nat /\ vectors_with u s = 0%nat) ->
  scan_invariant s.
Proof.
  intros Hef Hfresh. split; [|split].
  - intros u Hu. destruct (Hfresh u Hu) as [? ?]. repeat split; try done.
    intros p. by rewrite Hef, lookup_empty.
  - intros p q u. by rewrite Hef, lookup_empty.
  - intros p u. by rewrite Hef, lookup_empty.
Qed.

Lemma empty_profile_consistent s : embedded_files s = ∅ -> consistent s.
Proof. intros Hef p u. by rewrite Hef, lookup_empty. Qed.

(** X1.  The first scan of a library, when it is not cancelled, leaves the
    two stores consistent with the scan profile: if the scan profile is
    empty, no write is staged and no uuid that is still to be drawn is in
    use, then after [initialize], whether it returns or raises, every uuid
    of the scan profile has exactly one row and exactly one vector. *)
Theorem uncancelled_first_scan_consistent w force_init progress_reporter cancel_event s :
  embedded_files s = ∅ -> staged s = [] -> fresh_uuids s -> never_set cancel_event ->
  consistent (fst (initialize w force_init progress_reporter cancel_event s)).
Proof.
  intros Hef Hst Hfresh Hnever. rewrite initialize_eq.
  destruct (lib_is_ready s && negb force_init); [by apply empty_profile_consistent|].
  destruct (negb (lib_is_ready s) && negb (embedder s));
    [by apply empty_profile_consistent|].
  destruct (loaded_frame s) as (_&_&_&_&Hefl&_&Hdl&_&Hstl&_&Hrl&Hvl&_).
  destruct (negb force_init && _ && _).
  { apply empty_profile_consistent. cbn. congruence. }
  set (s0 := purged (loaded s)).
  destruct (purged_loaded_frame s) as (_&_&_&_&Hef0&_&Hd0&_&Hst0&_). fold s0 in Hef0, Hd0, Hst0.
  assert (scan_invariant s0) as Hinv0.
  { apply empty_profile_invariant; [congruence|]. intros u Hu. rewrite Hd0 in Hu.
    unfold s0, purged. destruct (lib_is_ready (loaded s)).
    - unfold rows_with, vectors_with. cbn. by rewrite Hstl, Hst.
    - destruct (Hfresh u Hu) as (Hr & Hv & _).
      unfold rows_with, vectors_with in *. by rewrite Hrl, Hvl, Hstl. }
  destruct (scan_lock s0) eqn:Hlock.
  - rewrite locked_scan_held by done. apply empty_profile_consistent. cbn. congruence.
  - rewrite locked_scan_free_eq by done. unfold after_scan.
    set (s1 := stamped w s0).
    pose proof (scan_and_initialize_invariant w progress_reporter cancel_event false s1 Hinv0)
      as Hinv2.
    pose proof (scan_and_initialize_staged w progress_reporter cancel_event false s1) as Hst2.
    pose proof (scan_and_initialize_raises w progress_reporter cancel_event false Hnever s1)
      as Hraise.
    destruct (scan_and_initialize _ _ _ _ s1) as [s2 r]. cbn in *.
    assert (consistent (set_scan_lock false s2)) as Hcons.
    { apply paired_consistent; [apply Hinv2|]. cbn. apply Hst2. congruence. }
    destruct r as [e|[]]; [|exact Hcons].
    destruct e; try exact Hcons. by destruct (Hraise _ eq_refl msg).
Qed.

Lemma uncancelled_first_scan_consistent_witness :
  embedded_files fresh_library = ∅ /\ staged fresh_library = [] /\
  fresh_uuids fresh_library /\ never_set None /\
  consistent (fst (initialize demo_world false false None fresh_library)).
Proof.
  split; [reflexivity|]. split; [reflexivity|].
  split; [exact fresh_library_fresh_uuids|]. split; [exact never_set_None|].
  exact (uncancelled_first_scan_consistent demo_world false false None fresh_library
           eq_refl eq_refl fresh_library_fresh_uuids never_set_None).
Defined.

(** ** What a scan puts into the scan profile *)

Lemma report_progress_profile progress_reporter v s :
  embedded_files (fst (report_progress progress_reporter v s)) = embedded_files s /\
  files (fst (report_progress progress_reporter v s)) = files s /\
  snd (report_progress progress_reporter v s) = inr tt.
Proof. unfold report_progress. by destruct progress_reporter. Qed.

Lemma write_embedding_entry_profile w p e save_pipeline s :
  let res := write_embedding_entry w p e save_pipeline s in
  files (fst res) = files s /\
  (embedded_files (fst res) = embedded_files s \/
   exists u, embedded_files (fst res) = <[p := u]> (embedded_files s)) /\
  (snd res = inr tt -> is_Some (embedded_files (fst res) !! p)).
Proof.
  cbv zeta.
  unfold write_embedding_entry, uuid4, insert_row, vector_db_add, bind, gets, modify.
  cbn [fst snd]. destruct save_pipeline; cbn.
  - destruct (bool_decide _); cbn; (split; [done|]); (split; [right; by eexists|]);
      intros _; rewrite lookup_insert_eq; by eexists.
  - destruct (index_dimension s) as [d|]; cbn; [|by repeat split; auto].
    destruct (bool_decide _); cbn; [|by repeat split; auto].
    split; [done|]. split; [right; by eexists|].
    intros _. rewrite lookup_insert_eq. by eexists.
Qed.

Lemma save_yielded_eq w save_pipeline p x e d s :
  save_yielded w false save_pipeline p (Some (x :: e)) d s =
    (write_embedding_entry w p (x :: e) save_pipeline ;;
     ret (if save_pipeline || local_mode s
          then if bool_decide (d = -1) then Z.of_nat (length (x :: e)) else d
          else d))
      (if negb save_pipeline && (bool_decide (d = -1) && local_mode s)
       then set_index_dimension (Some (Z.of_nat (length (x :: e)))) s
       else s).
Proof.
  unfold save_yielded, initialize_index, bind, gets, modify, ret.
  destruct save_pipeline, (bool_decide (d = -1)), (local_mode s); reflexivity.
Qed.

Lemma save_yielded_profile w scan_only save_pipeline p y d s :
  let res := save_yielded w scan_only save_pipeline p y d s in
  files (fst res) = files s /\
  (forall q, is_Some (embedded_files (fst res) !! q) ->
             is_Some (embedded_files s !! q) \/ q = p) /\
  (forall q, is_Some (embedded_files s !! q) -> is_Some (embedded_files (fst res) !! q)) /\
  (scan_only = false -> forall d', snd res = inr d' ->
   is_Some (embedded_files (fst res) !! p)).
Proof.
  cbv zeta.
  destruct scan_only; [by repeat split; auto|].
  destruct y as [[|x e]|]; [by repeat split; auto| |by repeat split; auto].
  rewrite save_yielded_eq.
  set (s1 := if negb save_pipeline && _ then _ else s).
  assert (embedded_files s1 = embedded_files s /\ files s1 = files s) as [Hef1 Hf1].
  { unfold s1. by destruct (negb save_pipeline && _). }
  unfold bind.
  destruct (write_embedding_entry_profile w p (x :: e) save_pipeline s1)
    as (Hf & Hef & Hok).
  destruct (write_embedding_entry w p (x :: e) save_pipeline s1) as [s2 [err|[]]];
    cbn in *; rewrite Hf, Hf1, <- Hef1.
  - split; [done|]. split; [|split; [|by intros _ d' [=]]].
    + intros q. destruct Hef as [->|[u ->]]; [auto|].
      destruct (decide (p = q)) as [<-|Hne]; [auto|].
      rewrite lookup_insert_ne by done. auto.
    + intros q. destruct Hef as [->|[u ->]]; [auto|].
      destruct (decide (p = q)) as [<-|Hne];
        [rewrite lookup_insert_eq; by eexists|by rewrite lookup_insert_ne].
  - split; [done|]. split; [|split].
    + intros q. destruct Hef as [->|[u ->]]; [auto|].
      destruct (decide (p = q)) as [<-|Hne]; [auto|].
      rewrite lookup_insert_ne by done. auto.
    + intros q. destruct Hef as [->|[u ->]]; [auto|].
      destruct (decide (p = q)) as [<-|Hne];
        [rewrite lookup_insert_eq; by eexists|by rewrite lookup_insert_ne].
    + intros _ d' _. by apply Hok.
Qed.

Lemma profile_after_refl w scan_only s {A : Type} (r : exn + A) :
  profile_after w scan_only [] s (s, r).
Proof.
  split; [done|]. split; [auto|]. split; [auto|].
  intros _ _ i q Hin. by apply elem_of_nil in Hin.
Qed.

Lemma profile_after_raised w scan_only items s s' {A : Type} (e : exn) :
  files s' = files s -> embedded_files s' = embedded_files s ->
  profile_after w scan_only items s (s', @inl exn A e).
Proof.
  intros Hf Hef. split; [done|]. cbn. rewrite Hef. split; [auto|]. split; [auto|].
  by intros _ [a [=]].
Qed.

Lemma scan_items_profile w progress_reporter cancel_event scan_only save_pipeline
    total items previous dimension polls s :
  profile_after w scan_only items s
    (scan_items w progress_reporter cancel_event scan_only save_pipeline
                total items previous dimension polls s).
Proof.
  revert previous dimension polls s.
  induction items as [|[i p] items IH]; intros previous dimension polls s.
  - apply profile_after_refl.
  - cbn [scan_items]. unfold bind at 1, image_open. cbv beta iota.
    set (s0 := set_log (log s ++ [ImageOpened p]) s).
    match goal with |- profile_after ?a ?b ?c s ?res =>
      change (profile_after a b c s0 res) end.
    clearbody s0. clear s. rename s0 into s.
    destruct (verify w p) eqn:Hv; cbn [negb].
    + unfold bind at 1.
      set (rep := if bool_decide _ then _ else _).
      assert (exists s1, rep s = (s1, inr tt) /\ embedded_files s1 = embedded_files s /\
                         files s1 = files s) as (s1 & -> & Hef1 & Hf1).
      { unfold rep. destruct (bool_decide _); [|by exists s].
        destruct (report_progress_profile progress_reporter (current_progress i total) s)
          as (? & ? & ?).
        destruct (report_progress _ _ s) as [s1 r]. cbn in *. subst r. by exists s1. }
      destruct (cancelled cancel_event polls); [by apply profile_after_raised|].
      unfold bind.
      set (y := if save_pipeline && scan_only then _ else _).
      destruct (save_yielded_profile w scan_only save_pipeline p y dimension s1)
        as (Hf2 & Hsub2 & Hgrow2 & Hok2).
      destruct (save_yielded _ _ _ _ _ _ s1) as [s2 [e|d2]]; cbn [fst snd] in *.
      * split; [cbn; congruence|]. cbn [fst snd]. rewrite <- Hef1.
        split; [|split; [auto|by intros _ [a [=]]]].
        intros q Hq. destruct (Hsub2 q Hq) as [?| ->]; [auto|].
        right. split; [exists i; by left|done].
      * match goal with |- context [scan_items _ _ _ _ _ _ _ ?pv ?dv ?pl s2] =>
          destruct (IH pv dv pl s2) as (Hf3 & Hsub3 & Hgrow3 & Hok3) end.
        split; [congruence|]. split; [|split].
        -- intros q Hq. destruct (Hsub3 q Hq) as [Hq2|([j Hj] & Hvq)].
           ++ destruct (Hsub2 q Hq2) as [Hq1| ->].
              ** left. by rewrite <- Hef1.
              ** right. split; [exists i; by left|done].
           ++ right. split; [exists j; by right|done].
        -- intros q Hq. apply Hgrow3, Hgrow2. by rewrite Hef1.
        -- intros Hso Hd j q Hin Hvq. apply elem_of_cons in Hin as [[= -> ->]|Hin].
           ++ apply Hgrow3. by apply (Hok2 Hso d2).
           ++ by apply (Hok3 Hso Hd j q).
    + destruct (IH previous dimension polls s) as (Hf3 & Hsub3 & Hgrow3 & Hok3).
      split; [done|]. split; [|split; [done|]].
      * intros q Hq. destruct (Hsub3 q Hq) as [?|([j Hj] & Hvq)]; [auto|].
        right. split; [exists j; by right|done].
      * intros Hso Hd j q Hin Hvq. apply elem_of_cons in Hin as [[= -> ->]|Hin];
          [congruence|]. by apply (Hok3 Hso Hd j q).
Qed.

Lemma elem_of_foldl_set_add (fs acc : list string) (q : string) :
  q ∈ foldl (fun acc f => set_add f acc) acc fs <-> q ∈ acc \/ q ∈ fs.
Proof.
  revert acc. induction fs as [|f fs IH]; intros acc; cbn.
  - rewrite elem_of_nil. tauto.
  - rewrite IH, elem_of_cons. unfold set_add.
    destruct (bool_decide_reflect (f ∈ acc)) as [Hin|Hnin].
    + split; [tauto|]. intros [?|[->|?]]; auto.
    + rewrite elem_of_app, list_elem_of_singleton. tauto.
Qed.

Lemma elem_of_enumerate (l : list string) (q : string) :
  (exists i, (i, q) ∈ enumerate l) <-> q ∈ l.
Proof.
  unfold enumerate. split.
  - intros [i Hin]. apply elem_of_lookup_imap in Hin as (j & x & [= -> ->] & Hx).
    by eapply list_elem_of_lookup_2.
  - intros Hin. apply list_elem_of_lookup in Hin as [i Hi].
    exists i. by apply (elem_of_lookup_imap_2 pair l q i).
Qed.

Lemma scan_loop_profile w progress_reporter cancel_event scan_only save_pipeline s :
  profile_after w scan_only (enumerate (foldl (fun acc f => set_add f acc) [] (files s))) s
    (scan_loop w progress_reporter cancel_event scan_only save_pipeline s).
Proof. apply scan_items_profile. Qed.

(** The scan profile after [__scan_and_initialize], when it is to embed. *)
Lemma scan_and_initialize_profile w progress_reporter cancel_event s :
  profile_scanned w s (scan_and_initialize w progress_reporter cancel_event false s).
Proof.
  unfold scan_and_initialize, bind at 1, gets at 1.
  set (loop := if negb (local_mode s) then _ else _).
  assert (profile_after w false
            (enumerate (foldl (fun acc f => set_add f acc) [] (files s))) s (loop s))
    as (Hf & Hsub & Hgrow & Hok).
  { unfold loop. destruct (negb (local_mode s)); [|apply scan_loop_profile].
    unfold with_save_pipeline.
    pose proof (scan_loop_profile w progress_reporter cancel_event false true s) as H.
    by destruct (scan_loop _ _ _ _ _ s) as [s1 r]. }
  assert (forall q, (exists i, (i, q) ∈ enumerate
                       (foldl (fun acc f => set_add f acc) [] (files s))) <-> q ∈ files s)
    as Hitems.
  { intros q. rewrite elem_of_enumerate, elem_of_foldl_set_add, elem_of_nil. tauto. }
  unfold bind. destruct (loop s) as [s1 [e|d]]; cbn [fst snd negb] in *.
  - split; [done|]. split; [|split; [done|by intros [=]]].
    intros q Hq. destruct (Hsub q Hq) as [?|[Hi ?]]; [auto|]. right. by rewrite <- Hitems.
  - unfold persist, save_scan_profile, initialize_index, bind, modify, ret.
    assert (forall q, q ∈ files s -> verify w q = true -> is_Some (embedded_files s1 !! q))
      as Hall.
    { intros q Hq Hv. apply Hitems in Hq as [i Hi]. apply (Hok eq_refl (ex_intro _ d eq_refl) i q Hi Hv). }
    destruct (negb (local_mode s)); cbn; (split; [done|]);
      (split; [|split; [done|by intros _]]);
      intros q Hq; (destruct (Hsub q Hq) as [?|[Hi ?]]; [auto|]); right; by rewrite <- Hitems.
Qed.

Lemma reaches_lock_initialize w force_init progress_reporter cancel_event s :
  reaches_lock force_init s = true ->
  initialize w force_init progress_reporter cancel_event s
  = locked_scan w progress_reporter cancel_event (purged (loaded s)).
Proof.
  intros H. rewrite initialize_eq. unfold reaches_lock in H.
  destruct (lib_is_ready s && negb force_init); [done|].
  destruct (lib_is_ready s), (embedder s); cbn in *; try done;
    by destruct (negb force_init && _ && _).
Qed.

(** X2.  A scan that is not cancelled and returns has indexed the folder:
    every file of the library folder that is a valid image has an entry in
    the scan profile, every entry was there before or belongs to a valid
    image of the folder, the saved scan profile is the one in memory, and
    the folder is as it was. *)
Theorem scan_indexes_valid_images w force_init progress_reporter cancel_event s :
  never_set cancel_event ->
  starts_scan force_init s = true ->
  snd (initialize w force_init progress_reporter cancel_event s) = inr tt ->
  let s' := fst (initialize w force_init progress_reporter cancel_event s) in
  files s' = files s /\
  scan_profile s' = embedded_files s' /\
  (forall q, q ∈ files s -> verify w q = true -> is_Some (embedded_files s' !! q)) /\
  (forall q, is_Some (embedded_files s' !! q) ->
             is_Some (embedded_files s !! q) \/ (q ∈ files s /\ verify w q = true)).
Proof.
  intros Hnever Hstart. unfold starts_scan in Hstart.
  apply andb_prop in Hstart as [Hreach Hfree]. apply negb_true_iff in Hfree.
  rewrite reaches_lock_initialize by done.
  destruct (purged_loaded_frame s) as (_&_&_&Hk&Hef0&_&_&Hf0&_).
  rewrite locked_scan_free_eq by congruence. unfold after_scan.
  set (s1 := stamped w (purged (loaded s))).
  destruct (scan_and_initialize_profile w progress_reporter cancel_event s1)
    as (Hf & Hsub & Hgrow & Hok).
  pose proof (scan_and_initialize_raises w progress_reporter cancel_event false Hnever s1)
    as Hraise.
  destruct (scan_and_initialize _ _ _ _ s1) as [s2 r]. cbn [fst snd] in *.
  assert (embedded_files s1 = embedded_files s /\ files s1 = files s) as [Hef1 Hf1].
  { unfold s1. cbn. by rewrite Hef0, Hf0. }
  destruct r as [e|[]].
  - destruct e; cbn; try done. by destruct (Hraise _ eq_refl msg).
  - cbn. intros _. destruct (Hok eq_refl) as [Hall Hprof].
    rewrite <- Hf1, <- Hef1. by repeat split; auto.
Qed.

Lemma scan_indexes_valid_images_witness :
  never_set None /\
  starts_scan false fresh_library = true /\
  snd (initialize demo_world false false None fresh_library) = inr tt /\
  let s' := fst (initialize demo_world false false None fresh_library) in
  files s' = files fresh_library /\
  scan_profile s' = embedded_files s' /\
  (forall q, q ∈ files fresh_library -> verify demo_world q = true ->
             is_Some (embedded_files s' !! q)) /\
  (forall q, is_Some (embedded_files s' !! q) ->
             is_Some (embedded_files fresh_library !! q) \/
             (q ∈ files fresh_library /\ verify demo_world q = true)).
Proof.
  split; [exact never_set_None|]. split; [vm_compute; reflexivity|].
  split; [vm_compute; reflexivity|].
  apply (scan_indexes_valid_images demo_world false false None fresh_library never_set_None).
  - vm_compute; reflexivity.
  - vm_compute; reflexivity.
Defined.

(** ** Removal and the dual-store invariant *)

Lemma filter_kept {A : Type} (key : A -> uuid) (u : uuid) (removed : list uuid) (l : list A) :
  u ∉ removed ->
  filter (fun x => key x = u) (filter (fun x => key x ∉ removed) l)
  = filter (fun x => key x = u) l.
Proof.
  intros Hu. rewrite list_filter_filter. apply list_filter_iff.
  intros x. split; [tauto|]. intros ->. done.
Qed.

(** X3.  [remove_embeddings] keeps the dual-store consistency: on a ready
    library whose scan profile is consistent with the two stores and maps no
    two paths to one uuid, both still hold after the call, for every list of
    paths. *)
Theorem remove_embeddings_keeps_consistency (s : ImageLib) (relative_paths : list string) :
  lib_is_ready s = true -> consistent s -> profile_injective s ->
  consistent (fst (remove_embeddings relative_paths s)) /\
  profile_injective (fst (remove_embeddings relative_paths s)).
Proof.
  intros Hready Hcons Hinj.
  destruct (for_each_remove_embedding relative_paths s)
    as (s' & Hrun & Hef & Hrows & Hvec & _ & _).
  assert (forall p u, embedded_files s' !! p = Some u ->
            embedded_files s !! p = Some u /\
            u ∉ removed_uuids (embedded_files s) relative_paths) as Hkept.
  { intros p u. rewrite Hef, lookup_foldl_delete. case_bool_decide as Hin; [done|].
    intros Hp. split; [done|]. intros Hu. unfold removed_uuids in Hu.
    apply list_elem_of_omap in Hu as (q & Hq & Hqu).
    by rewrite (Hinj p q u Hp Hqu) in Hin. }
  assert (consistent s' /\ profile_injective s') as Hs'.
  { split.
    - intros p u Hp. destruct (Hkept p u Hp) as [Hp0 Hu].
      rewrite Hrows, Hvec, !filter_kept by done. by apply (Hcons p).
    - intros p q u Hp Hq. destruct (Hkept p u Hp) as [Hp0 _].
      destruct (Hkept q u Hq) as [Hq0 _]. by apply (Hinj p q u). }
  unfold remove_embeddings, ensure_lib_is_ready, bind, gets. rewrite Hready.
  destruct relative_paths as [|p ps]; [done|].
  rewrite Hrun. unfold save_scan_profile, modify. exact Hs'.
Qed.

Lemma remove_embeddings_keeps_consistency_witness :
  lib_is_ready scanned_library = true /\ consistent scanned_library /\
  profile_injective scanned_library /\
  consistent (fst (remove_embeddings ["/d/b.png"; ""; "zzz"] scanned_library)) /\
  profile_injective (fst (remove_embeddings ["/d/b.png"; ""; "zzz"] scanned_library)).
Proof.
  split; [vm_compute; reflexivity|].
  split; [exact scanned_library_consistent|]. split; [exact scanned_library_injective|].
  apply (remove_embeddings_keeps_consistency scanned_library ["/d/b.png"; ""; "zzz"]).
  - vm_compute; reflexivity.
  - exact scanned_library_consistent.
  - exact scanned_library_injective.
Defined.

(** ** [delete_files] *)

Lemma for_each_delete_file w (relative_paths : list string) (s : ImageLib) :
  for_each relative_paths (delete_file w) s
  = (set_files (filter (kept_file w relative_paths) (files s)) s, inr tt).
Proof.
  revert s. induction relative_paths as [|p ps IH]; intros s.
  - cbn. rewrite filter_all; [by destruct s|]. by intros x _.
  - cbn [for_each]. unfold bind, delete_file.
    destruct (decide (p = "")) as [->|Hp].
    + rewrite bool_decide_eq_true_2 by done. unfold ret. rewrite IH.
      unfold kept_file, targets. by rewrite filter_cons_False by (by intros ?).
    + rewrite bool_decide_eq_false_2 by done. unfold modify. rewrite IH.
      assert (filter (kept_file w ps) (filter (fun f => negb (names w (lstrip p) f)) (files s))
              = filter (kept_file w (p :: ps)) (files s)) as Hfilter.
      { rewrite list_filter_filter. apply list_filter_iff. intros f.
        unfold kept_file, targets. rewrite (filter_cons_True _ p) by done.
        rewrite fmap_cons. cbn [forallb]. rewrite andb_True. tauto. }
      rewrite <- Hfilter. reflexivity.
Qed.

(** X4.  On a ready library [delete_files] returns; it removes from the
    folder every file that one of its non-empty paths names once its leading
    separators are stripped, and from the scan profile, the table and the
    vector store what [remove_embeddings] removes for the same list. *)
Theorem delete_files_removes w (s : ImageLib) (relative_paths : list string) :
  lib_is_ready s = true ->
  exists s',
    delete_files w relative_paths s = (s', inr tt) /\
    files s' = filter (kept_file w relative_paths) (files s) /\
    (forall p, embedded_files s' !! p =
               if bool_decide (p ∈ targets relative_paths) then None
               else embedded_files s !! p) /\
    rows s' = filter (fun r => row_uuid r ∉ removed_uuids (embedded_files s) relative_paths)
                     (rows s) /\
    vectors s' = filter (fun kv => fst kv ∉ removed_uuids (embedded_files s) relative_paths)
                        (vectors s).
Proof.
  intros Hready. unfold delete_files. destruct relative_paths as [|p ps].
  - exists s. split; [done|]. split.
    { symmetry. apply filter_all. by intros x _. }
    split; [done|].
    split; symmetry; apply filter_all; intros x _; apply not_elem_of_nil.
  - unfold bind at 1. rewrite for_each_delete_file.
    set (s1 := set_files _ s).
    destruct (for_each_remove_embedding (p :: ps) s1)
      as (s' & Hrun & Hef & Hrows & Hvec & _ & Hframe).
    unfold remove_embeddings, ensure_lib_is_ready, bind, gets.
    replace (lib_is_ready s1) with true by (by rewrite <- Hready).
    rewrite Hrun. unfold save_scan_profile, modify. eexists. split; [reflexivity|].
    cbn. destruct Hframe as (_&_&_&_&_&_&_&_&_&Hf&_).
    split; [by rewrite Hf|]. split; [|by rewrite Hrows, Hvec].
    intros q. rewrite Hef. apply lookup_foldl_delete.
Qed.

Lemma delete_files_removes_witness :
  lib_is_ready scanned_library = true /\
  exists s',
    delete_files demo_world ["/d/b.png"; ""; "zzz"] scanned_library = (s', inr tt) /\
    files s' = filter (kept_file demo_world ["/d/b.png"; ""; "zzz"]) (files scanned_library) /\
    (forall p, embedded_files s' !! p =
               if bool_decide (p ∈ targets ["/d/b.png"; ""; "zzz"]) then None
               else embedded_files scanned_library !! p) /\
    rows s' = filter (fun r => row_uuid r ∉
                        removed_uuids (embedded_files scanned_library)
                                      ["/d/b.png"; ""; "zzz"])
                     (rows scanned_library) /\
    vectors s' = filter (fun kv => fst kv ∉
                           removed_uuids (embedded_files scanned_library)
                                         ["/d/b.png"; ""; "zzz"])
                        (vectors scanned_library).
Proof.
  split; [vm_compute; reflexivity|].
  apply (delete_files_removes demo_world scanned_library ["/d/b.png"; ""; "zzz"]).
  vm_compute; reflexivity.
Defined.

(** X5.  On a library that is not ready, [delete_files] with a list that
    is not empty deletes the files from the folder all the same and then
    raises [LibraryError]: the readiness check of [remove_embeddings] comes
    after the files are gone.  Nothing else of the library changes. *)
Theorem delete_files_not_ready w (s : ImageLib) (relative_paths : list string) :
  lib_is_ready s = false -> relative_paths <> [] ->
  exists msg,
    delete_files w relative_paths s
    = (set_files (filter (kept_file w relative_paths) (files s)) s,
       inl (LibraryError msg)).
Proof.
  intros Hready Hne. unfold delete_files. destruct relative_paths as [|p ps]; [done|].
  unfold bind at 1. rewrite for_each_delete_file.
  unfold remove_embeddings, ensure_lib_is_ready, bind, gets.
  replace (lib_is_ready (set_files _ s)) with false by (by rewrite <- Hready).
  by eexists.
Qed.

Lemma delete_files_not_ready_witness :
  lib_is_ready fresh_library = false /\ ["a.png"] <> [] /\
  exists msg,
    delete_files demo_world ["a.png"] fresh_library
    = (set_files (filter (kept_file demo_world ["a.png"]) (files fresh_library))
                 fresh_library,
       inl (LibraryError msg)).
Proof.
  split; [vm_compute; reflexivity|]. split; [discriminate|].
  apply (delete_files_not_ready demo_world fresh_library ["a.png"]).
  - vm_compute; reflexivity.
  - discriminate.
Defined.

(** ** The walk of an incremental run *)

Lemma targets_relative (l : list string) :
  Forall (fun p => p <> "" /\ lstrip p = p) l -> targets l = l.
Proof.
  unfold targets. induction 1 as [|p l [Hp Hl] _ IH]; [done|].
  rewrite filter_cons_True by done. rewrite fmap_cons. by rewrite Hl, IH.
Qed.

Lemma elem_of_profile_keys (ef : gmap string uuid) (p : string) :
  p ∈ map fst (map_to_list ef) <-> is_Some (ef !! p).
Proof.
  change (map fst (map_to_list ef)) with (fst <$> map_to_list ef).
  rewrite list_elem_of_fmap. split.
  - intros ([q u] & -> & Hin). apply elem_of_map_to_list in Hin. by eexists.
  - intros [u Hu]. exists (p, u). split; [done|]. by apply elem_of_map_to_list.
Qed.

Lemma to_be_embedded_spec (ef : gmap string uuid) (fs acc : list string) :
  let l := foldl (fun acc f => if bool_decide (is_Some (ef !! f)) then acc
                               else set_add f acc) acc fs in
  (forall f, f ∈ l <-> f ∈ acc \/ (f ∈ fs /\ ef !! f = None)) /\
  (NoDup acc -> NoDup l).
Proof.
  cbv zeta. revert acc. induction fs as [|x fs IH]; intros acc; cbn.
  - split; [|done]. intros f. rewrite elem_of_nil. tauto.
  - match goal with |- context [foldl _ ?a fs] => destruct (IH a) as [Hin Hnd] end.
    split.
    + intros f. rewrite Hin, elem_of_cons.
      destruct (bool_decide_reflect (is_Some (ef !! x))) as [Hx|Hx].
      * split; [tauto|]. intros [?|[[->|?] Hf]]; [auto| |auto].
        rewrite Hf in Hx. by destruct Hx.
      * apply eq_None_not_Some in Hx. unfold set_add.
        destruct (bool_decide_reflect (x ∈ acc)) as [Hxa|Hxa].
        -- split; [tauto|]. intros [?|[[->|?] Hf]]; auto.
        -- rewrite elem_of_app, list_elem_of_singleton.
           split; [intros [[?| ->]|?]; auto; tauto|].
           intros [?|[[->|?] Hf]]; auto.
    + intros Hacc. apply Hnd.
      destruct (bool_decide (is_Some (ef !! x))); [done|]. unfold set_add.
      destruct (bool_decide_reflect (x ∈ acc)) as [Hxa|Hxa]; [done|].
      apply NoDup_app. split; [done|]. split; [|apply NoDup_singleton].
      intros y Hy ->%list_elem_of_singleton. done.
Qed.

(** X6.  The walk of an incremental run of [__do_scan], on a ready library
    whose scan profile is keyed by relative paths as [os.path.relpath] gives
    them: it returns; [to_be_embedded] holds, once each, exactly the files
    of the folder that are not in the scan profile; the entries, rows and
    vectors of the paths whose file is gone are removed and all others are
    kept; the folder is as it was. *)
Theorem incremental_walk (s : ImageLib) :
  lib_is_ready s = true -> relative_keys s ->
  exists s' to_be_embedded,
    do_scan_walk true s = (s', inr to_be_embedded) /\
    NoDup to_be_embedded /\
    (forall f, f ∈ to_be_embedded <-> f ∈ files s /\ embedded_files s !! f = None) /\
    (forall p, embedded_files s' !! p =
               if bool_decide (p ∈ files s) then embedded_files s !! p else None) /\
    rows s' = filter (fun r => row_uuid r ∉ removed_uuids (embedded_files s) (gone_paths s))
                     (rows s) /\
    vectors s' = filter (fun kv => fst kv ∉ removed_uuids (embedded_files s) (gone_paths s))
                        (vectors s) /\
    files s' = files s.
Proof.
  intros Hready Hkeys. unfold do_scan_walk, bind at 1 2, gets at 1 2.
  set (all_files := foldl (fun acc f => set_add f acc) [] (files s)).
  set (l := foldl _ [] (files s)).
  set (to_be_deleted := filter _ _).
  destruct (to_be_embedded_spec (embedded_files s) (files s) []) as [Hl Hnd].
  fold l in Hl, Hnd.
  assert (forall p, p ∈ all_files <-> p ∈ files s) as Hall.
  { intros p. unfold all_files. rewrite elem_of_foldl_set_add, elem_of_nil. tauto. }
  assert (to_be_deleted = gone_paths s) as Hgone.
  { unfold to_be_deleted, gone_paths. apply list_filter_iff. intros p. by rewrite Hall. }
  assert (forall p, p ∈ gone_paths s <-> is_Some (embedded_files s !! p) /\ p ∉ files s)
    as Hgone_in.
  { intros p. unfold gone_paths. rewrite list_elem_of_filter, elem_of_profile_keys. tauto. }
  assert (targets (gone_paths s) = gone_paths s) as Htargets.
  { apply targets_relative, Forall_forall. intros p Hp.
    apply Hgone_in in Hp as [[u Hu] _]. by apply (Hkeys p u). }
  assert (forall f, f ∈ l <-> f ∈ files s /\ embedded_files s !! f = None) as Hl'.
  { intros f. rewrite Hl, elem_of_nil. tauto. }
  rewrite Hgone. clearbody l. clear to_be_deleted Hgone.
  destruct (for_each_remove_embedding (gone_paths s) s)
    as (s' & Hrun & Hef & Hrows & Hvec & _ & Hframe).
  assert (forall p, embedded_files s' !! p =
                    if bool_decide (p ∈ files s) then embedded_files s !! p else None)
    as Hprofile.
  { intros p. rewrite Hef, lookup_foldl_delete, Htargets.
    destruct (bool_decide_reflect (p ∈ gone_paths s)) as [Hg|Hg];
      destruct (bool_decide_reflect (p ∈ files s)) as [Hf|Hf]; try done.
    - apply Hgone_in in Hg as [_ ?]. done.
    - destruct (embedded_files s !! p) as [u|] eqn:Hp; [|done].
      destruct Hg. apply Hgone_in. split; [by eexists|done]. }
  destruct (gone_paths s) as [|g gs] eqn:Hgs.
  - cbn in Hrun. injection Hrun as <-. exists s, l. unfold bind, ret.
    split; [done|]. split; [by apply Hnd, NoDup_nil|]. split; [done|].
    split; [done|]. by rewrite <- Hrows, <- Hvec.
  - unfold bind, remove_embeddings, ensure_lib_is_ready, bind, gets. rewrite Hready, Hrun.
    unfold save_scan_profile, modify, ret. eexists _, l. split; [reflexivity|]. cbn.
    split; [by apply Hnd, NoDup_nil|]. split; [done|]. split; [done|].
    destruct Hframe as (_&_&_&_&_&_&_&_&_&Hf&_). by rewrite Hrows, Hvec, Hf.
Qed.

Lemma incremental_walk_witness :
  lib_is_ready changed_library = true /\ relative_keys changed_library /\
  exists s' to_be_embedded,
    do_scan_walk true changed_library = (s', inr to_be_embedded) /\
    NoDup to_be_embedded /\
    (forall f, f ∈ to_be_embedded <->
               f ∈ files changed_library /\ embedded_files changed_library !! f = None) /\
    (forall p, embedded_files s' !! p =
               if bool_decide (p ∈ files changed_library)
               then embedded_files changed_library !! p else None) /\
    rows s' = filter (fun r => row_uuid r ∉
                        removed_uuids (embedded_files changed_library)
                                      (gone_paths changed_library))
                     (rows changed_library) /\
    vectors s' = filter (fun kv => fst kv ∉
                           removed_uuids (embedded_files changed_library)
                                         (gone_paths changed_library))
                        (vectors changed_library) /\
    files s' = files changed_library.
Proof.
  split; [vm_compute; reflexivity|]. split; [exact changed_library_relative_keys|].
  apply (incremental_walk changed_library).
  - vm_compute; reflexivity.
  - exact changed_library_relative_keys.
Defined.

(** ** What a scan leaves of the object *)

Lemma same_handles_refl s : same_handles s s.
Proof. by repeat split. Qed.

Lemma same_handles_trans s1 s2 s3 :
  same_handles s1 s2 -> same_handles s2 s3 -> same_handles s1 s3.
Proof. unfold same_handles. intros (?&?&?&?) (?&?&?&?). repeat split; congruence. Qed.

Lemma scan_and_initialize_handles w progress_reporter cancel_event scan_only :
  preserves same_handles
    (scan_and_initialize w progress_reporter cancel_event scan_only).
Proof.
  apply scan_and_initialize_preserves.
  - exact same_handles_refl.
  - exact same_handles_trans.
  - intros v. unfold report_progress.
    repeat preserves_step same_handles_refl same_handles_trans. by repeat split.
  - intros p s. by repeat split.
  - intros sp p y d. unfold save_yielded, initialize_index, write_embedding_entry,
      insert_row, vector_db_add.
    repeat preserves_step same_handles_refl same_handles_trans; try (by repeat split).
    all: unfold flush; cbn; destruct (bool_decide _); by repeat split.
  - intros s. by repeat split.
  - intros _. unfold save_scan_profile. apply preserves_modify. by intros s; repeat split.
  - intros _ d. unfold initialize_index. apply preserves_modify. by intros s; repeat split.
Qed.

Lemma locked_scan_handles w progress_reporter cancel_event s :
  same_handles s (fst (locked_scan w progress_reporter cancel_event s)).
Proof.
  destruct (scan_lock s) eqn:Hlock.
  - rewrite locked_scan_held by done. apply same_handles_refl.
  - rewrite locked_scan_free_eq by done. unfold after_scan.
    set (s1 := stamped w s).
    pose proof (scan_and_initialize_handles w progress_reporter cancel_event false s1) as H.
    destruct (scan_and_initialize _ _ _ _ s1) as [s2 r]. cbn in H.
    destruct H as (?&?&?&?).
    destruct r as [[]|]; cbn; by repeat split.
Qed.

Lemma reaches_lock_loaded force_init s :
  reaches_lock force_init s = true ->
  let s0 := purged (loaded s) in
  table s0 = true /\ vector_db s0 = true /\ embedder s0 = true.
Proof.
  intros H. cbv zeta. unfold reaches_lock in H. unfold purged, loaded.
  destruct (lib_is_ready s) eqn:Hready.
  - rewrite Hready. cbn. unfold lib_is_ready in Hready.
    destruct (metadata_exists s), (table s), (vector_db s), (embedder s); done.
  - destruct (embedder s) eqn:He; [|by rewrite andb_false_r in H].
    destruct (lib_is_ready (set_vector_db true (set_table true s))); cbn; by rewrite ?He.
Qed.

(** X7.  After a call of [initialize] that started a scan, whether the scan
    completed, was cancelled or failed, the library is ready, and a further
    [initialize] without [force_init] returns at once and changes nothing:
    so a library whose first scan was cancelled stays as the cancellation
    left it until a scan is forced. *)
Theorem initialize_after_scan w force_init progress_reporter cancel_event s :
  starts_scan force_init s = true ->
  let s' := fst (initialize w force_init progress_reporter cancel_event s) in
  lib_is_ready s' = true /\
  forall w' progress_reporter' cancel_event',
    initialize w' false progress_reporter' cancel_event' s' = (s', inr tt).
Proof.
  intros Hstart. cbv zeta. unfold starts_scan in Hstart.
  apply andb_prop in Hstart as [Hreach Hfree]. apply negb_true_iff in Hfree.
  assert (lib_is_ready (fst (initialize w force_init progress_reporter cancel_event s))
          = true) as Hready.
  { rewrite reaches_lock_initialize by done.
    destruct (reaches_lock_loaded force_init s Hreach) as (Ht & Hv & He).
    destruct (purged_loaded_frame s) as (_&_&_&Hk&_).
    destruct (locked_scan_free w progress_reporter cancel_event (purged (loaded s)))
      as (_ & Hm & _); [congruence|].
    destruct (locked_scan_handles w progress_reporter cancel_event (purged (loaded s)))
      as (_ & Ht' & Hv' & He').
    unfold lib_is_ready, metadata_exists. rewrite Hm, Ht', Hv', He', Ht, Hv, He. done. }
  split; [exact Hready|]. intros w' pr' ce'. rewrite initialize_eq, Hready. done.
Qed.

Lemma initialize_after_scan_witness :
  starts_scan false fresh_library = true /\
  let s' := fst (initialize demo_world false false cancel_after_first fresh_library) in
  lib_is_ready s' = true /\
  forall w' progress_reporter' cancel_event',
    initialize w' false progress_reporter' cancel_event' s' = (s', inr tt).
Proof.
  split; [vm_compute; reflexivity|].
  apply (initialize_after_scan demo_world false false cancel_after_first fresh_library).
  vm_compute; reflexivity.
Defined.

(** X9.  [initialize], [incremental_initialization] and [demolish] leave
    the scan lock as they found it, whether they return or raise: a call
    that acquires the lock releases it on every path. *)
Theorem scan_lock_released w force_init progress_reporter cancel_event s :
  scan_lock (fst (initialize w force_init progress_reporter cancel_event s)) = scan_lock s /\
  scan_lock (fst (incremental_initialization w progress_reporter cancel_event s))
  = scan_lock s /\
  scan_lock (fst (demolish s)) = scan_lock s.
Proof.
  assert (forall f, scan_lock (fst (initialize w f progress_reporter cancel_event s))
                    = scan_lock s) as Hinit.
  { intros f. rewrite initialize_eq.
    destruct (lib_is_ready s && negb f); [done|].
    destruct (negb (lib_is_ready s) && negb (embedder s)); [done|].
    destruct (negb f && _ && _).
    { by destruct (loaded_frame s) as (_&_&_&?&_). }
    destruct (purged_loaded_frame s) as (_&_&_&Hk&_).
    destruct (scan_lock s) eqn:Hlock.
    - by rewrite locked_scan_held.
    - by destruct (locked_scan_free w progress_reporter cancel_event (purged (loaded s)))
        as (_ & _ & ? & _). }
  split; [apply Hinit|]. split.
  - unfold incremental_initialization, bind, gets.
    destruct (bool_decide _); [apply Hinit|].
    destruct (lib_is_ready s); [done|].
    unfold load_dbs, bind, gets, modify, raise. cbn.
    by destruct (embedder s).
  - unfold demolish, with_LockContext.
    destruct (scan_lock s) eqn:Hlock; [done|].
    unfold bind, gets, modify, raise, delete_db. cbn.
    destruct (local_mode s); cbn; [done|]. by destruct (vector_db s).
Qed.

(** ** [demolish] *)

Lemma unlock_lock s : scan_lock s = false -> set_scan_lock false (set_scan_lock true s) = s.
Proof. destruct s. cbn. by intros ->. Qed.

Lemma demolish_free_eq s :
  scan_lock s = false ->
  demolish s =
    if negb (local_mode s) && negb (vector_db s)
    then (s, inl (LibraryError
                    "For Redis vector DB, the library must be initialized before demolish"))
    else (set_scan_lock false
            (rmtree_lib_data
               (set_vector_db false (set_table false (set_embedder false
                  (if local_mode s then set_scan_lock true s
                   else set_index_dimension None (set_vectors [] (set_scan_lock true s))))))),
          inr tt).
Proof.
  intros Hfree. unfold demolish, with_LockContext. rewrite Hfree.
  unfold bind, gets, modify, raise, ret, delete_db. cbn [negb local_mode set_scan_lock].
  destruct (local_mode s) eqn:Hlm; cbn [negb andb].
  - reflexivity.
  - cbn [vector_db set_scan_lock]. destruct (vector_db s); cbn [negb].
    + reflexivity.
    + by rewrite unlock_lock.
Qed.

(** X8.  [demolish] with the scan lock free, on a library whose data
    folder exists (its metadata file is there).  On the networked store
    before the vector store is loaded it raises [LibraryError] and changes
    nothing.  Otherwise it returns: the metadata file, the saved scan
    profile, the rows and the vectors are gone, while the scan profile in
    memory and the folder are as they were; the library is not ready, and
    every later [initialize] raises [LibraryError('Embedder not set')] and
    changes nothing. *)
Theorem demolish_then_initialize (s : ImageLib) :
  scan_lock s = false -> is_Some (metadata_file s) ->
  (local_mode s = false -> vector_db s = false ->
   demolish s
   = (s, inl (LibraryError
                "For Redis vector DB, the library must be initialized before demolish"))) /\
  (local_mode s = true \/ vector_db s = true ->
   let s1 := fst (demolish s) in
   snd (demolish s) = inr tt /\
   lib_is_ready s1 = false /\ metadata_file s1 = None /\ scan_profile s1 = ∅ /\
   rows s1 = [] /\ vectors s1 = [] /\
   embedded_files s1 = embedded_files s /\ files s1 = files s /\
   scan_lock s1 = false /\
   forall w force_init progress_reporter cancel_event,
     initialize w force_init progress_reporter cancel_event s1
     = (s1, inl (LibraryError "Embedder not set"))).
Proof.
  intros Hfree _. rewrite demolish_free_eq by done. split.
  - by intros -> ->.
  - intros Hmode. cbv zeta.
    assert (negb (local_mode s) && negb (vector_db s) = false) as ->.
    { destruct Hmode as [-> | ->]; [done|]. apply andb_false_r. }
    cbn [fst snd].
    set (s1 := set_scan_lock false _).
    assert (embedder s1 = false /\ table s1 = false /\ metadata_file s1 = None /\
            scan_profile s1 = ∅ /\ rows s1 = [] /\ vectors s1 = [] /\
            embedded_files s1 = embedded_files s /\ files s1 = files s /\
            scan_lock s1 = false) as (He & Ht & Hm & Hp & Hr & Hv & Hef & Hf & Hk).
    { unfold s1, rmtree_lib_data. destruct (local_mode s) eqn:Hlm; cbn; rewrite ?Hlm; cbn.
      - done.
      - done. }
    assert (lib_is_ready s1 = false) as Hready.
    { unfold lib_is_ready. by rewrite He, andb_false_r. }
    repeat (split; [done|]).
    intros w f pr ce. rewrite initialize_eq, Hready, He. done.
Qed.

Lemma demolish_then_initialize_witness :
  scan_lock scanned_library = false /\ is_Some (metadata_file scanned_library) /\
  (local_mode scanned_library = false -> vector_db scanned_library = false ->
   demolish scanned_library
   = (scanned_library,
      inl (LibraryError
             "For Redis vector DB, the library must be initialized before demolish"))) /\
  (local_mode scanned_library = true \/ vector_db scanned_library = true ->
   let s1 := fst (demolish scanned_library) in
   snd (demolish scanned_library) = inr tt /\
   lib_is_ready s1 = false /\ metadata_file s1 = None /\ scan_profile s1 = ∅ /\
   rows s1 = [] /\ vectors s1 = [] /\
   embedded_files s1 = embedded_files scanned_library /\ files s1 = files scanned_library /\
   scan_lock s1 = false /\
   forall w force_init progress_reporter cancel_event,
     initialize w force_init progress_reporter cancel_event s1
     = (s1, inl (LibraryError "Embedder not set"))).
Proof.
  assert (is_Some (metadata_file scanned_library)) as Hmeta.
  { exists 7%nat. vm_compute; reflexivity. }
  split; [vm_compute; reflexivity|]. split; [exact Hmeta|].
  apply (demolish_then_initialize scanned_library); [|exact Hmeta].
  vm_compute; reflexivity.
Defined.

(** ** A scan that only scans *)

Lemma nothing_written_refl s : nothing_written s s.
Proof. by repeat split. Qed.

Lemma nothing_written_trans s1 s2 s3 :
  nothing_written s1 s2 -> nothing_written s2 s3 -> nothing_written s1 s3.
Proof.
  unfold nothing_written. intros (?&?&?&?&?&?&?&?) (?&?&?&?&?&?&?&?).
  repeat split; congruence.
Qed.

Lemma scan_only_nothing_written w progress_reporter cancel_event :
  preserves nothing_written (scan_and_initialize w progress_reporter cancel_event true).
Proof.
  apply scan_and_initialize_preserves.
  - exact nothing_written_refl.
  - exact nothing_written_trans.
  - intros v. unfold report_progress. destruct progress_reporter.
    + apply preserves_modify. intros s. by repeat split.
    + apply preserves_ret, nothing_written_refl.
  - intros p s. by repeat split.
  - intros sp p y d. unfold save_yielded. apply preserves_ret, nothing_written_refl.
  - intros s. unfold flush. repeat split; try done. cbn. by rewrite app_nil_r.
  - done.
  - done.
Qed.

Lemma scan_only_raises w progress_reporter cancel_event :
  raises_only is_cancellation (scan_and_initialize w progress_reporter cancel_event true).
Proof.
  apply scan_and_initialize_raises_only.
  - right. by eexists.
  - intros sp p y d. unfold save_yielded. apply raises_only_ret.
Qed.

Lemma scan_only_never_cancelled w progress_reporter cancel_event :
  never_set cancel_event ->
  raises_only (fun _ => False) (scan_and_initialize w progress_reporter cancel_event true).
Proof.
  intros Hnever. apply scan_and_initialize_raises_only.
  - by left.
  - intros sp p y d. unfold save_yielded. apply raises_only_ret.
Qed.

(** X10.  [__scan_and_initialize] with [scan_only] writes nothing: the
    rows, the vectors written or staged, the scan profile in memory and on
    disk, the uuids drawn, the index, the folder and the clock are as
    before.  It returns, or raises the cancellation of the task; it returns
    when the cancel event is never set. *)
Theorem scan_only_writes_nothing w progress_reporter cancel_event s :
  let res := scan_and_initialize w progress_reporter cancel_event true s in
  nothing_written s (fst res) /\
  (snd res = inr tt \/ exists msg, snd res = inl (TaskCancellationException msg)) /\
  (never_set cancel_event -> snd res = inr tt).
Proof.
  cbv zeta. split; [apply scan_only_nothing_written|].
  pose proof (scan_only_raises w progress_reporter cancel_event s) as Hraise.
  pose proof (fun H => scan_only_never_cancelled w progress_reporter cancel_event H s) as Hnever.
  destruct (snd (scan_and_initialize w progress_reporter cancel_event true s)) as [e|[]].
  - split.
    + right. destruct (Hraise e eq_refl) as [msg ->]. by exists msg.
    + intros H. by destruct (Hnever H e eq_refl).
  - split; [by left|done].
Qed.

(** ** Forced re-initialisation *)

(** X12.  Forced re-initialisation keeps stale entries.  The library was
    scanned and is consistent; [d/b.png] is then deleted from the folder
    and [f.png] added.  [initialize] with [force_init] purges both stores,
    rescans and returns, but the scan profile still maps [d/b.png] to
    uuid 1: the rows and vectors are those of the uuids 2 and 3, and
    consistency is lost. *)
Lemma forced_initialize_keeps_stale_entry :
  consistent scanned_library /\
  ("d/b.png" ∉ files changed_library) /\
  let (s', r) := initialize demo_world true false None changed_library in
  r = inr tt /\
  embedded_files s' !! "d/b.png" = Some 1%nat /\
  map row_uuid (rows s') = [2; 3]%nat /\ map fst (vectors s') = [2; 3]%nat /\
  ~ consistent s'.
Proof.
  split; [exact scanned_library_consistent|]. split.
  { vm_compute. intros H. repeat (apply elem_of_cons in H as [H|H]; [discriminate H|]).
    by apply elem_of_nil in H. }
  vm_compute initialize. repeat split; try reflexivity.
  intros H. destruct (H "d/b.png" 1%nat) as [Hrow _]; [reflexivity|]. discriminate Hrow.
Qed.

End ImageLibraryFacts.
